(** * obsidian2cosma: a shallow embedding of the note transformation pipeline

    The development follows [obsidian2cosma.py]: the front matter codec
    ([parse_yaml_front_matter], the dump half of
    [reformat_yaml_front_matter_in_file]), the header normaliser
    ([_normalize_key], [_normalize_value]), the identity assigner
    ([create_id], [metadata_init]), the reference rewriter
    ([replace_wiki_links] with its callback [replace_wiki_link]), the typed
    link recoder ([transform_typed_links]) and the selection filter
    ([filter_files]).

    Text is a list of characters.  A character is a code point below 256,
    so the whitespace and case tables are the Latin-1 part of the ones
    Python uses for [str].  Regular expressions are embedded as the
    backtracking search they denote, one matcher per pattern, and [re.sub],
    [re.finditer] and [str.replace] as left-to-right scans. *)

From Stdlib Require Import Ascii ZArith Lia DecimalString.
From stdpp Require Import base option list gmap strings.

Open Scope list_scope.

(** ** Text *)

Abbreviation text := (list ascii).

(** A literal of the source, as text. *)
Definition T (s : string) : text := String.list_ascii_of_string s.

Definition chr_eqb (a b : ascii) : bool := Ascii.eqb a b.

Arguments chr_eqb : simpl never.

Definition nl : ascii := ascii_of_nat 10.

Definition is_nl (c : ascii) : bool := chr_eqb c nl.

(** [str.isspace] on one character, which is also what [\s] matches:
    TAB..CR, FS..US, SPACE, and NEL and NBSP of Latin-1. *)
Definition isspace (c : ascii) : bool :=
  let n := nat_of_ascii c in
  ((9 <=? n) && (n <=? 13)) || ((28 <=? n) && (n <=? 32))
  || (n =? 133) || (n =? 160).

(** [str.lower] on one character: A..Z and the Latin-1 capitals
    (U+00C0..U+00DE but the multiplication sign) move up by 32. *)
Definition lower_chr (c : ascii) : ascii :=
  let n := nat_of_ascii c in
  if ((65 <=? n) && (n <=? 90))
     || ((192 <=? n) && (n <=? 222) && negb (n =? 215))
  then ascii_of_nat (n + 32) else c.

Definition lower (s : text) : text := map lower_chr s.

(** [str.lstrip], [str.rstrip] and [str.strip] without argument. *)
Fixpoint lstrip (s : text) : text :=
  match s with
  | c :: s' => if isspace c then lstrip s' else s
  | [] => []
  end.

Definition rstrip (s : text) : text := rev (lstrip (rev s)).

Definition strip (s : text) : text := rstrip (lstrip s).

(** [prefix_of p s] is [Some r] when [s = p ++ r]: matching a literal. *)
Fixpoint prefix_of (p s : text) : option text :=
  match p, s with
  | [], _ => Some s
  | a :: p', b :: s' => if chr_eqb a b then prefix_of p' s' else None
  | _ :: _, [] => None
  end.

(** [str.split(sep)] for a one-character separator. *)
Fixpoint split_on (sep : ascii) (s : text) : list text :=
  match s with
  | [] => [[]]
  | c :: s' =>
      if chr_eqb c sep then [] :: split_on sep s'
      else match split_on sep s' with
           | p :: ps => (c :: p) :: ps
           | [] => [[c]]
           end
  end.

(** [sep in s]. *)
Definition contains_chr (sep : ascii) (s : text) : bool :=
  existsb (chr_eqb sep) s.

(** ** Exceptions *)

Inductive exn : Type :=
| ValueError      (* too many values to unpack *)
| AttributeError  (* a method applied to a value that has not got it *)
| TypeError
| FileNotFoundError
| YAMLError
| OutOfFuel.      (* a scan given less fuel than characters *)

Inductive result (A : Type) : Type :=
| Ok (a : A)
| Raise (e : exn).

Arguments Ok {A} a.
Arguments Raise {A} e.

(** Sequencing: the first exception raised ends the computation.  The
    notation [x ← r; k] is the one of the monads of stdpp. *)
#[global] Instance result_bind : MBind result :=
  fun A B (k : A -> result B) (r : result A) =>
    match r with
    | Ok a => k a
    | Raise e => Raise e
    end.

#[global] Instance result_fmap : FMap result :=
  fun A B (f : A -> B) (r : result A) =>
    match r with
    | Ok a => Ok (f a)
    | Raise e => Raise e
    end.

Lemma bind_Ok {A B : Type} (a : A) (k : A -> result B) : Ok a ≫= k = k a.
Proof. reflexivity. Qed.

Lemma bind_Raise {A B : Type} (e : exn) (k : A -> result B) :
  Raise e ≫= k = Raise e.
Proof. reflexivity. Qed.

(** ** Scanning: [re.sub], [re.finditer], [str.replace]

    A matcher is given the character before the current position (for a
    look-behind) and the text from the current position on; it answers with
    what it captured and the text after the match.  The patterns of this
    program never match the empty string, so a scan moves on by one
    character where the matcher fails and to the end of the match where it
    succeeds. *)

(** The text of [s] that a match leaving [r] has consumed. *)
Definition consumed (s r : text) : text := take (length s - length r) s.

Section Scan.
Context {G : Type}.
Variable matcher : option ascii -> text -> option (G * text).

(** [re.sub(pattern, repl, s)] with a callback that may raise.  The scan
    needs one unit of fuel per character. *)
Fixpoint re_sub (repl : G -> result text) (fuel : nat)
    (prev : option ascii) (s : text) : result text :=
  match s with
  | [] => Ok []
  | c :: s' =>
      match fuel with
      | O => Raise OutOfFuel
      | S fuel' =>
          match matcher prev s with
          | Some (g, r) =>
              out ← repl g;
              rest ← re_sub repl fuel' (last (consumed s r)) r;
              Ok (out ++ rest)
          | None =>
              rest ← re_sub repl fuel' (Some c) s';
              Ok (c :: rest)
          end
      end
  end.

(** [re.finditer(pattern, s)]: the captures of the successive matches. *)
Fixpoint re_finditer (fuel : nat) (prev : option ascii) (s : text)
    : list G :=
  match s with
  | [] => []
  | c :: s' =>
      match fuel with
      | O => []
      | S fuel' =>
          match matcher prev s with
          | Some (g, r) => g :: re_finditer fuel' (last (consumed s r)) r
          | None => re_finditer fuel' (Some c) s'
          end
      end
  end.
End Scan.

(** [s.replace(old, new)] for a non-empty [old]: every occurrence, from
    the left, without overlap. *)
Definition literal_matcher (old : text) (_ : option ascii) (s : text)
    : option (unit * text) :=
  match old with
  | [] => None
  | _ :: _ => r ← prefix_of old s; Some (tt, r)
  end.

Definition str_replace (s old new : text) : text :=
  match re_sub (literal_matcher old) (fun _ => Ok new) (length s) None s with
  | Ok out => out
  | Raise _ => s
  end.

(** [s.replace(old, new, 1)]: the first occurrence only. *)
Fixpoint str_replace_first (s old new : text) : text :=
  match prefix_of old s with
  | Some r => new ++ r
  | None =>
      match s with
      | [] => []
      | c :: s' => c :: str_replace_first s' old new
      end
  end.

(** ** Reference rewriter *)

(** The end of a reference: [\]\](?!\()]. *)
Definition link_close (s : text) : option text :=
  match prefix_of (T "]]") s with
  | Some r =>
      match r with
      | c :: _ => if chr_eqb c "("%char then None else Some r
      | [] => Some r
      end
  | None => None
  end.

(** [(.+?)\]\](?!\()]: the shortest non-empty run of characters other than
    a newline after which the reference ends. *)
Fixpoint link_text_lazy (s : text) : option (text * text) :=
  match s with
  | [] => None
  | c :: s' =>
      if is_nl c then None
      else match link_close s' with
           | Some r => Some ([c], r)
           | None =>
               match link_text_lazy s' with
               | Some (g, r) => Some (c :: g, r)
               | None => None
               end
           end
  end.

(** [(?<!!)\[\[(.+?)\]\](?!\()] at one position. *)
Definition wiki_link_matcher (prev : option ascii) (s : text)
    : option (text * text) :=
  match prev with
  | Some p =>
      if chr_eqb p "!"%char then None
      else r ← prefix_of (T "[[") s; link_text_lazy r
  | None => r ← prefix_of (T "[[") s; link_text_lazy r
  end.

Section Rewriter.
(** [title2id] with the identifiers as they are formatted into text, and
    [args.zettlr]. *)
Variable title2id : gmap text text.
Variable zettlr : bool.

(** The callback of [re.sub], on group 1 of the match. *)
Definition replace_wiki_link (link_text : text) : result text :=
  if contains_chr "|"%char link_text then
    match split_on "|"%char link_text with
    | [link_title; link_alias] =>
        match title2id !! link_title with
        | None => Ok (T "[[" ++ link_text ++ T "]]")
        | Some id =>
            if zettlr
            then Ok (T "[" ++ strip link_alias ++ T "]([[" ++ id ++ T "]])")
            else Ok (T "[[" ++ id ++ T "|" ++ strip link_alias ++ T "]]")
        end
    | _ => Raise ValueError
    end
  else
    match title2id !! link_text with
    | None => Ok (T "[[" ++ link_text ++ T "]]")
    | Some id =>
        if zettlr
        then Ok (T "[" ++ link_text ++ T "]([[" ++ id ++ T "]])")
        else Ok (T "[[" ++ id ++ T "|" ++ link_text ++ T "]]")
    end.

(** The first substitution of [replace_wiki_links]. *)
Definition sub_wiki_links (content : text) : result text :=
  re_sub wiki_link_matcher replace_wiki_link (length content) None content.
End Rewriter.

(** [\.jpe?g\]\]] *)
Definition jpg_close (s : text) : option (text * text) :=
  match prefix_of (T ".jpeg]]") s with
  | Some r => Some (T ".jpeg", r)
  | None =>
      match prefix_of (T ".jpg]]") s with
      | Some r => Some (T ".jpg", r)
      | None => None
      end
  end.

(** [\.png\]\]] *)
Definition png_close (s : text) : option (text * text) :=
  match prefix_of (T ".png]]") s with
  | Some r => Some (T ".png", r)
  | None => None
  end.

(** [.+?] followed by one of the endings above: one alternative of the
    image pattern, with the closing brackets that follow the group. *)
Fixpoint image_name_lazy (close : text -> option (text * text)) (s : text)
    : option (text * text) :=
  match s with
  | [] => None
  | c :: s' =>
      if is_nl c then None
      else match close s' with
           | Some (e, r) => Some (c :: e, r)
           | None =>
               match image_name_lazy close s' with
               | Some (g, r) => Some (c :: g, r)
               | None => None
               end
           end
  end.

(** [!\[\[(.+?\.jpe?g|.+?\.png)\]\]] at one position: the second
    alternative is tried when the first fails up to the end of the line.
    The capture is group 1. *)
Definition image_matcher (_ : option ascii) (s : text)
    : option (text * text) :=
  match prefix_of (T "![[") s with
  | Some r =>
      match image_name_lazy jpg_close r with
      | Some m => Some m
      | None => image_name_lazy png_close r
      end
  | None => None
  end.

(** The loop over [re.finditer(pattern, content)]: the matches are those
    of the text as it was before the loop, and each one rewrites every
    occurrence of its group 0 in the current text. *)
Definition replace_images (content : text) : text :=
  fold_left
    (fun acc image_link =>
       str_replace acc (T "![[" ++ image_link ++ T "]]")
                       (T "![](" ++ image_link ++ T ")"))
    (re_finditer image_matcher (length content) None content)
    content.

(** [replace_wiki_links], from the text read to the text written.  The
    count of the links replaced, which the function only prints, is left
    out. *)
Definition replace_wiki_links (title2id : gmap text text) (zettlr : bool)
    (content : text) : result text :=
  content1 ← sub_wiki_links title2id zettlr content;
  Ok (replace_images content1).

(** ** Headers *)

(** What [yaml.safe_load] can return, as far as this program looks at it.
    A string carries the mark of [_QuotedStr], the subclass of [str] that
    the dumper writes between double quotes.  A mapping keeps the order in
    which its keys were first inserted, as a Python [dict] does; the keys
    are taken as the text [str(k)] gives. *)
#[local] Set Warnings "-register-all".

Inductive value : Type :=
| VNone
| VStr (quoted : bool) (s : text)
| VInt (z : Z)
| VBool (b : bool)
| VList (l : list value)
| VDict (d : list (text * value)).

Definition text_eqb (a b : text) : bool := bool_decide (a = b).

(** [d[k] = v]: an existing key keeps its place. *)
Fixpoint dict_set {V : Type} (d : list (text * V)) (k : text) (v : V)
    : list (text * V) :=
  match d with
  | [] => [(k, v)]
  | (k', v') :: d' =>
      if text_eqb k' k then (k, v) :: d' else (k', v') :: dict_set d' k v
  end.

(** [d.get(k)], with [None] for a missing key. *)
Fixpoint dict_get {V : Type} (d : list (text * V)) (k : text) : option V :=
  match d with
  | [] => None
  | (k', v) :: d' => if text_eqb k' k then Some v else dict_get d' k
  end.

(** The dictionary built by assigning the items in turn. *)
Definition dict_of_items {V : Type} (items : list (text * V))
    : list (text * V) :=
  fold_left (fun d kv => dict_set d (fst kv) (snd kv)) items [].

(** [key.strip().lower()], then every space replaced by an underscore. *)
Definition _normalize_key (key : text) : text :=
  map (fun c => if chr_eqb c " "%char then "_"%char else c)
      (lower (strip key)).

Fixpoint _normalize_value (val : value) : value :=
  match val with
  | VNone => VList []
  | VStr _ s0 =>
      let s := strip s0 in
      match s with
      | [] => VList []
      | _ :: _ => VStr true s
      end
  | VList l => VList (map _normalize_value l)
  | VDict d =>
      VDict (dict_of_items
               (map (fun kv => (_normalize_key (fst kv),
                                _normalize_value (snd kv))) d))
  | VInt _ | VBool _ => val
  end.

(** The loop of [reformat_yaml_front_matter_in_file] that fills
    [new_data]. *)
Definition normalize_header (data : list (text * value))
    : list (text * value) :=
  fold_left
    (fun new_data kv =>
       dict_set new_data (_normalize_key (fst kv)) (_normalize_value (snd kv)))
    data [].

(** [data == {}] *)
Definition is_empty_dict (data : value) : bool :=
  match data with
  | VDict [] => true
  | _ => false
  end.

(** ** Header codec *)

(** [(.*?)\n---]: group 1 and the text after the closing hyphens. *)
Fixpoint front_lazy (s : text) : option (text * text) :=
  match prefix_of (nl :: T "---") s with
  | Some r => Some ([], r)
  | None =>
      match s with
      | [] => None
      | c :: s' =>
          match front_lazy s' with
          | Some (g, r) => Some (c :: g, r)
          | None => None
          end
      end
  end.

(** [\s*\n(.*?)\n---]: the greedy [\s*] gives whitespace back until a
    newline follows it and the rest of the pattern matches. *)
Fixpoint front_open (s : text) : option (text * text) :=
  match s with
  | [] => None
  | c :: s' =>
      if isspace c then
        match front_open s' with
        | Some m => Some m
        | None => if is_nl c then front_lazy s' else None
        end
      else None
  end.

(** [re.match] of [^---\s*\n(.*?)\n---\s*\n?] followed by a
    group for the rest of the text, with [re.DOTALL]: groups 1 and 2.
    After the closing hyphens the greedy [\s*] takes all
    the whitespace there is, which leaves nothing to [\n?]. *)
Definition front_matter_match (content : text) : option (text * text) :=
  r ← prefix_of (T "---") content;
  m ← front_open r;
  Some (fst m, lstrip (snd m)).

(** [re.match] of [^---\n(.*?)\n---] and anything, with [re.DOTALL], the test of
    [metadata_init], which only asks whether there is a match. *)
Definition strict_front_match (content : text) : bool :=
  match prefix_of (T "---") content with
  | Some (c :: r) => is_nl c && bool_decide (is_Some (front_lazy r))
  | _ => false
  end.

Section Yaml.
(** PyYAML, which is not part of the program: [yaml.safe_load] on the
    text of a front matter, and [yaml.safe_dump(_, sort_keys=False,
    allow_unicode=True)]. *)
Variable safe_load : text -> result value.
Variable safe_dump : value -> text.

Definition parse_yaml_front_matter (content : text)
    : result (value * text) :=
  match front_matter_match content with
  | None => Ok (VDict [], content)
  | Some (front_matter, body) =>
      data ← safe_load front_matter;
      Ok (match data with VNone => VDict [] | _ => data end, body)
  end.

(** The text [reformat_yaml_front_matter_in_file] writes for [new_data]
    and [body]. *)
Definition dump_front_matter (new_data : value) (body : text) : text :=
  T "---" ++ [nl] ++ rstrip (safe_dump new_data) ++ [nl] ++ T "---"
    ++ [nl] ++ lstrip body.

(** [reformat_yaml_front_matter_in_file], from the text read to the text
    written; [None] where the function returns [False] and writes
    nothing. *)
Definition reformat_yaml_front_matter (content : text)
    : result (option text) :=
  parsed ← parse_yaml_front_matter content;
  let (data, body) := (parsed : value * text) in
  if is_empty_dict data && text_eqb body content then Ok None
  else match data with
       | VDict d =>
           Ok (Some (dump_front_matter (VDict (normalize_header d)) body))
       | _ => Raise AttributeError
       end.
End Yaml.

(** ** Identity assigner *)

(** [front_matter.get(key)]: Python's [None] both for a missing key and
    for a key whose value is null; only a mapping has the method. *)
Definition front_matter_get (front_matter : value) (key : text)
    : result value :=
  match front_matter with
  | VDict d => Ok (default VNone (dict_get d key))
  | _ => Raise AttributeError
  end.

(** [str(n)] for an integer. *)
Definition str_of_Z (z : Z) : text :=
  T (DecimalString.NilZero.string_of_int (Z.to_int z)).

(** [Path(file).stem]: the last component of the path without its last
    suffix; a name that only starts or only ends with a dot has no
    suffix. *)
Fixpoint last_component (acc file : text) : text :=
  match file with
  | [] => acc
  | c :: file' =>
      if chr_eqb c "/"%char then last_component [] file'
      else last_component (acc ++ [c]) file'
  end.

Fixpoint drop_suffix (name : text) : option text :=
  match name with
  | [] => None
  | c :: name' =>
      match drop_suffix name' with
      | Some r => Some (c :: r)
      | None => if chr_eqb c "."%char then Some [] else None
      end
  end.

Definition stem (file : text) : text :=
  let name := last_component [] file in
  match name with
  | [] => []
  | c :: name' =>
      if chr_eqb (List.last name "x"%char) "."%char then name
      else match drop_suffix name' with
           | Some r => c :: r
           | None => name
           end
  end.

(** The text [metadata_init] writes back when it adds the line [field] to
    [content]: after the first three hyphens of the text when the strict
    pattern matches, in a new block before the text otherwise. *)
Definition insert_field (content field : text) : text :=
  if strict_front_match content
  then str_replace_first content (T "---") (T "---" ++ [nl] ++ field)
  else T "---" ++ [nl] ++ field ++ [nl] ++ T "---" ++ [nl] ++ content.

(** The files of the output folder by path, the counter [currentId], and
    the assignments [title2id[title] = id] made so far, the last one
    first. *)
Record run_state : Type := RunState {
  files_of : gmap text text;
  currentId : Z;
  title2id_of : list (value * value)
}.

Section Identity.
Variable safe_load : text -> result value.
(** [args.creationdate], and the creation date of a file as
    [create_id] formats it. *)
Variable creationdate : bool.
Variable creation_stamp : text -> text.

Definition create_id (file : text) (cur : Z) : value * Z :=
  if creationdate then (VStr false (creation_stamp file), cur)
  else (VInt (cur + 1)%Z, (cur + 1)%Z).

(** [str(id)] for what [create_id] returns. *)
Definition str_of_id (id : value) : text :=
  match id with
  | VInt z => str_of_Z z
  | VStr _ s => s
  | _ => []
  end.

Definition read_file (fs : gmap text text) (file : text) : result text :=
  match fs !! file with
  | Some content => Ok content
  | None => Raise FileNotFoundError
  end.

Definition is_none (v : value) : bool :=
  match v with
  | VNone => true
  | _ => false
  end.

(** A key of a [dict] has to be hashable. *)
Definition hashable (v : value) : bool :=
  match v with
  | VList _ | VDict _ => false
  | _ => true
  end.

(** One turn of the loop of [metadata_init]. *)
Definition metadata_init_file (st : run_state) (file : text)
    : result run_state :=
  content ← read_file (files_of st) file;
  parsed ← parse_yaml_front_matter safe_load content;
  let front_matter := fst (parsed : value * text) in
  id ← front_matter_get front_matter (T "id");
  title ← front_matter_get front_matter (T "title");
  let '(id, cur, fs1) :=
    if is_none id then
      let (id', cur') := create_id file (currentId st) in
      (id', cur',
       <[file := insert_field content (T "id: " ++ str_of_id id')]>
         (files_of st))
    else (id, currentId st, files_of st) in
  st2 ← (if is_none title then
           content ← read_file fs1 file;
           let title' := stem file in
           Ok (VStr false title',
               <[file := insert_field content (T "title: " ++ title')]> fs1)
         else Ok (title, fs1));
  let '(title, fs2) := (st2 : value * gmap text text) in
  if hashable title
  then Ok (RunState fs2 cur ((title, id) :: title2id_of st))
  else Raise TypeError.

Fixpoint metadata_init_from (st : run_state) (files : list text)
    : result run_state :=
  match files with
  | [] => Ok st
  | file :: files' =>
      st' ← metadata_init_file st file;
      metadata_init_from st' files'
  end.

(** [metadata_init(files)]: [title2id] starts empty. *)
Definition metadata_init (fs : gmap text text) (cur : Z)
    (files : list text) : result run_state :=
  metadata_init_from (RunState fs cur []) files.
End Identity.

(** ** Typed link recoder *)

(** [(.*?)\]\]]: the destination. *)
Fixpoint typed_dest_lazy (s : text) : option (text * text) :=
  match prefix_of (T "]]") s with
  | Some r => Some ([], r)
  | None =>
      match s with
      | [] => None
      | c :: s' =>
          if is_nl c then None
          else match typed_dest_lazy s' with
               | Some (g, r) => Some (c :: g, r)
               | None => None
               end
      end
  end.

(** [(.*?) \[\[(.*?)\]\]]: the prefix, the destination, the rest. *)
Fixpoint typed_prefix_lazy (s : text) : option ((text * text) * text) :=
  match r ← prefix_of (T " [[") s; typed_dest_lazy r with
  | Some (d, r) => Some (([], d), r)
  | None =>
      match s with
      | [] => None
      | c :: s' =>
          if is_nl c then None
          else match typed_prefix_lazy s' with
               | Some ((p, d), r) => Some ((c :: p, d), r)
               | None => None
               end
      end
  end.

(** [- (.*?) \[\[(.*?)\]\]] at one position. *)
Definition typed_link_matcher (_ : option ascii) (s : text)
    : option ((text * text) * text) :=
  r ← prefix_of (T "- ") s; typed_prefix_lazy r.

(** [re.sub] of that pattern by [[[\1:\2]]]. *)
Definition sub_typed_links (s : text) : text :=
  match re_sub typed_link_matcher
          (fun g => Ok (T "[[" ++ fst g ++ T ":" ++ snd g ++ T "]]"))
          (length s) None s with
  | Ok out => out
  | Raise _ => s
  end.

(** The look-ahead [(?=\n##?\s|$)]; without [re.MULTILINE] the dollar
    holds at the end of the text and before a newline that ends it. *)
Definition section_stop (s : text) : bool :=
  match s with
  | [] => true
  | c :: s' =>
      is_nl c &&
      match s' with
      | [] => true
      | h :: s'' =>
          chr_eqb h "#"%char &&
          match s'' with
          | [] => false
          | x :: s3 =>
              isspace x
              || (chr_eqb x "#"%char
                  && match s3 with
                     | y :: _ => isspace y
                     | [] => false
                     end)
          end
      end
  end.

(** [(.*?)] before that look-ahead, with [re.DOTALL]. *)
Fixpoint section_lazy (s : text) : text * text :=
  if section_stop s then ([], s)
  else match s with
       | [] => ([], [])
       | c :: s' => let (g, r) := section_lazy s' in (c :: g, r)
       end.

(** [\[^\n\]*\n] *)
Fixpoint rest_of_line (s : text) : option text :=
  match s with
  | [] => None
  | c :: s' => if is_nl c then Some s' else rest_of_line s'
  end.

(** The pattern of [transform_typed_links] at one position, for a heading
    [semanticsection] that is free of the special characters of regular
    expressions, so that it stands for itself in the pattern:
    [(?:^|\n)], the heading, the rest of its line, the section. *)
Definition section_from (semanticsection s : text) : option (text * text) :=
  r ← prefix_of semanticsection s;
  r' ← rest_of_line r;
  Some (section_lazy r').

Definition section_matcher (semanticsection : text) (prev : option ascii)
    (s : text) : option (text * text) :=
  let after_newline :=
    match s with
    | c :: s' =>
        if is_nl c then section_from semanticsection s' else None
    | [] => None
    end in
  match prev with
  | None =>
      match section_from semanticsection s with
      | Some m => Some m
      | None => after_newline
      end
  | Some _ => after_newline
  end.

(** [re.search]: group 0 and group 1 of the first match. *)
Fixpoint section_search (semanticsection : text) (prev : option ascii)
    (s : text) : option (text * text) :=
  match section_matcher semanticsection prev s with
  | Some (section, r) => Some (consumed s r, section)
  | None =>
      match s with
      | [] => None
      | c :: s' => section_search semanticsection (Some c) s'
      end
  end.

(** [transform_typed_links], from the text read to the text written. *)
Definition transform_typed_links (semanticsection : option text)
    (content : text) : text :=
  match semanticsection with
  | Some heading =>
      match section_search heading None content with
      | Some (group0, section) =>
          let section := sub_typed_links section in
          let new_string := heading ++ [nl] ++ section ++ [nl] in
          str_replace content group0 new_string
      | None => content
      end
  | None => sub_typed_links content
  end.

(** ** Selection filter *)

(** [file.endswith(suffix)] *)
Definition endswith (file suffix : text) : bool :=
  bool_decide (is_Some (prefix_of (rev suffix) (rev file))).

(** What [\w] matches: letters, digits and the like, and the underscore. *)
Definition isword (c : ascii) : bool :=
  let n := nat_of_ascii c in
  ((48 <=? n) && (n <=? 57)) || ((65 <=? n) && (n <=? 90)) || (n =? 95)
  || ((97 <=? n) && (n <=? 122)) || (n =? 170)
  || ((178 <=? n) && (n <=? 179)) || (n =? 181)
  || ((185 <=? n) && (n <=? 186)) || ((188 <=? n) && (n <=? 190))
  || ((192 <=? n) && (n <=? 214)) || ((216 <=? n) && (n <=? 246))
  || (248 <=? n).

(** The greedy [\w*]. *)
Fixpoint word_run (s : text) : text * text :=
  match s with
  | [] => ([], [])
  | c :: s' =>
      if isword c then let (w, r) := word_run s' in (c :: w, r)
      else ([], s)
  end.

(** [#(\w+)] at one position. *)
Definition tag_matcher (_ : option ascii) (s : text) : option (text * text) :=
  match s with
  | c :: s' =>
      if chr_eqb c "#"%char then
        match word_run s' with
        | ([], _) => None
        | (w, r) => Some (w, r)
        end
      else None
  | [] => None
  end.

(** [re.findall] of that pattern. *)
Definition content_tags_of (content : text) : list text :=
  re_finditer tag_matcher (length content) None content.

(** [tags.split()]: the words between runs of whitespace. *)
Fixpoint split_ws (cur : text) (s : text) : list text :=
  match s with
  | [] => match cur with [] => [] | _ :: _ => [cur] end
  | c :: s' =>
      if isspace c then
        match cur with
        | [] => split_ws [] s'
        | _ :: _ => cur :: split_ws [] s'
        end
      else split_ws (cur ++ [c]) s'
  end.

(** [needle in haystack] for two strings. *)
Fixpoint is_substring (needle haystack : text) : bool :=
  match prefix_of needle haystack with
  | Some _ => true
  | None =>
      match haystack with
      | [] => false
      | _ :: h' => is_substring needle h'
      end
  end.

(** [v == s] for a string [s]. *)
Definition value_is_str (s : text) (v : value) : bool :=
  match v with
  | VStr _ s' => text_eqb s' s
  | _ => false
  end.

(** The truth value of an optional command line string. *)
Definition truthy (o : option text) : bool :=
  match o with
  | Some (_ :: _) => true
  | _ => false
  end.

Definition is_image (file : text) : bool :=
  endswith file (T ".jpg") || endswith file (T ".jpeg")
  || endswith file (T ".png").

Section Filter.
Variable safe_load : text -> result value.
(** The text of a file of the folder, by name; [args.type] and
    [args.tags]. *)
Variable read : text -> text.
Variable type : option text.
Variable tags : option text.

(** [set(yaml_tags)], as the list of its elements. *)
Definition yaml_tags_of (front_matter : value) : result (list value) :=
  match front_matter with
  | VDict d =>
      match default (VList []) (dict_get d (T "tags")) with
      | VStr q s => Ok [VStr q s]
      | VList l => if forallb hashable l then Ok l else Raise TypeError
      | VDict d' => Ok (map (fun kv => VStr false (fst kv)) d')
      | VNone | VInt _ | VBool _ => Raise TypeError
      end
  | _ => Raise AttributeError
  end.

(** The set of tags asked for on the command line. *)
Definition filter_tags_of (tags : text) : list text :=
  if contains_chr " "%char tags then split_ws [] tags else [tags].

(** The tags test: [false] where the loop says [continue]. *)
Definition tags_ok (front_matter : value) (content : text) : result bool :=
  match tags with
  | Some (c :: tags') =>
      yaml_tags ← yaml_tags_of front_matter;
      let content_tags := content_tags_of content in
      Ok (forallb
            (fun t => existsb (value_is_str t) yaml_tags
                      || existsb (text_eqb t) content_tags)
            (filter_tags_of (c :: tags')))
  | _ => Ok true
  end.

(** The two type tests: [false] where the loop says [continue]. *)
Definition type_ok (front_matter : value) : result bool :=
  match type with
  | Some (c :: type') =>
      match front_matter with
      | VDict d =>
          match dict_get d (T "type") with
          | None => Ok false
          | Some v => Ok (value_is_str (c :: type') v)
          end
      | VStr _ s =>
          if is_substring (T "type") s then Raise TypeError else Ok false
      | VList l =>
          if existsb (value_is_str (T "type")) l then Raise TypeError
          else Ok false
      | VNone | VInt _ | VBool _ => Raise TypeError
      end
  | _ => Ok true
  end.

(** One turn of the loop of [filter_files]: the names it appends. *)
Definition filter_file (file : text) : result (list text) :=
  let images := if is_image file then [file] else [] in
  if endswith file (T ".md") then
    let content := read file in
    parsed ← parse_yaml_front_matter safe_load content;
    let front_matter := fst (parsed : value * text) in
    t ← tags_ok front_matter content;
    if (t : bool) then
      ty ← type_ok front_matter;
      if (ty : bool) then Ok (file :: images) else Ok []
    else Ok []
  else Ok images.

Fixpoint filter_files (files : list text) : result (list text) :=
  match files with
  | [] => Ok []
  | file :: files' =>
      selected ← filter_file file;
      rest ← filter_files files';
      Ok (selected ++ rest)
  end.
End Filter.

(** ** Folder paths as types *)

(** [sep.join(parts)] for a one-character separator. *)
Fixpoint join_with (sep : ascii) (parts : list text) : text :=
  match parts with
  | [] => []
  | p :: parts' =>
      match parts' with
      | [] => p
      | _ :: _ => p ++ sep :: join_with sep parts'
      end
  end.

(** [part.lower()], then every space replaced by a hyphen. *)
Definition type_part (part : text) : text :=
  map (fun c => if chr_eqb c " "%char then "-"%char else c) (lower part).

(** The root of a POSIX path as [pathlib] reads it: one slash, and two
    slashes when the path starts with exactly two. *)
Definition path_root (folder_path : text) : list text :=
  match folder_path with
  | a :: rest =>
      if chr_eqb a "/"%char then
        match rest with
        | b :: rest' =>
            if chr_eqb b "/"%char then
              match rest' with
              | c :: _ => if chr_eqb c "/"%char then [T "/"] else [T "//"]
              | [] => [T "//"]
              end
            else [T "/"]
        | [] => [T "/"]
        end
      else []
  | [] => []
  end.

(** [Path(folder_path).parts]: the root when there is one, then what
    stands between the slashes, but for the empty parts and the single
    dots. *)
Definition path_parts (folder_path : text) : list text :=
  path_root folder_path
  ++ List.filter
       (fun part => negb (text_eqb part []) && negb (text_eqb part (T ".")))
       (split_on "/"%char folder_path).

Definition folder_path_to_type (folder_path : text) : text :=
  join_with "/"%char (map type_part (path_parts folder_path)).

(** [\s*\n] after the opening hyphens: a newline in the whitespace that
    follows them. *)
Fixpoint open_line (s : text) : bool :=
  match s with
  | [] => false
  | c :: s' => isspace c && (is_nl c || open_line s')
  end.

(** [re.match] of [^---\s*\n], the test of [apply_folder2type]. *)
Definition open_front_match (content : text) : bool :=
  match prefix_of (T "---") content with
  | Some r => open_line r
  | None => false
  end.

(** The text [apply_folder2type] writes back for [content]. *)
Definition insert_type (type_value content : text) : text :=
  if open_front_match content
  then str_replace_first content (T "---")
         (T "---" ++ [nl] ++ T "type: " ++ type_value)
  else T "---" ++ [nl] ++ T "type: " ++ type_value ++ [nl] ++ T "---"
         ++ [nl] ++ content.

Section Folder2Type.
Variable safe_load : text -> result value.
(** [file_to_folder], from the name of a file to its folder. *)
Variable file_to_folder : gmap text text.

(** One turn of the loop of [apply_folder2type], on the files of the
    output folder: the front matter is parsed, and a header that does not
    load ends the run, though the result is not used. *)
Definition apply_folder2type_file (fs : gmap text text) (file : text)
    : result (gmap text text) :=
  match file_to_folder !! last_component [] file with
  | None => Ok fs
  | Some folder =>
      let type_value := folder_path_to_type folder in
      content ← read_file fs file;
      _ ← parse_yaml_front_matter safe_load content;
      Ok (<[file := insert_type type_value content]> fs)
  end.

Fixpoint apply_folder2type (fs : gmap text text) (files : list text)
    : result (gmap text text) :=
  match files with
  | [] => Ok fs
  | file :: files' =>
      fs' ← apply_folder2type_file fs file;
      apply_folder2type fs' files'
  end.
End Folder2Type.

(** ** File names *)

(** [unicodedata.normalize] to NFD, then the characters that are not ASCII
    dropped, on one character: an accented letter of Latin-1 leaves its
    base letter, any other character above 127 leaves nothing. *)
Definition unaccent (c : ascii) : text :=
  let n := nat_of_ascii c in
  let base (b : nat) : text := [ascii_of_nat b] in
  if n <? 128 then [c]
  else if (192 <=? n) && (n <=? 197) then base 65
  else if n =? 199 then base 67
  else if (200 <=? n) && (n <=? 203) then base 69
  else if (204 <=? n) && (n <=? 207) then base 73
  else if n =? 209 then base 78
  else if (210 <=? n) && (n <=? 214) then base 79
  else if (217 <=? n) && (n <=? 220) then base 85
  else if n =? 221 then base 89
  else if (224 <=? n) && (n <=? 229) then base 97
  else if n =? 231 then base 99
  else if (232 <=? n) && (n <=? 235) then base 101
  else if (236 <=? n) && (n <=? 239) then base 105
  else if n =? 241 then base 110
  else if (242 <=? n) && (n <=? 246) then base 111
  else if (249 <=? n) && (n <=? 252) then base 117
  else if (n =? 253) || (n =? 255) then base 121
  else [].

(** The name [rename_file] gives to [file]: accents removed, then spaces
    replaced by hyphens. *)
Definition new_name (file : text) : text :=
  map (fun c => if chr_eqb c " "%char then "-"%char else c)
      (concat (map unaccent file)).

(** ** One note through the rewriting passes *)

(** The body of the last loop but one of [main] for one note:
    [replace_wiki_links], then [transform_typed_links] when
    [args.typedlinks] is set. *)
Definition rewrite_note (title2id : gmap text text) (zettlr typedlinks : bool)
    (semanticsection : option text) (content : text) : result text :=
  content1 ← replace_wiki_links title2id zettlr content;
  Ok (if typedlinks then transform_typed_links semanticsection content1
      else content1).

(** * Vocabulary of the statements

    The predicates on texts, bodies and maps that the properties below are
    stated with, and the notes, maps and loaders of their examples. *)

(** A text that [strip] leaves as it is. *)
Definition stripped (s : text) : Prop :=
  lstrip s = s /\ lstrip (rev s) = rev s.

(** The character map of [_normalize_key]. *)
Definition key_chr (c : ascii) : ascii :=
  let l := lower_chr c in if chr_eqb l " "%char then "_"%char else l.

(** The pair of the normalised key and the normalised value. *)
Definition normalize_item (kv : text * value) : text * value :=
  (_normalize_key (fst kv), _normalize_value (snd kv)).

(** A matcher that consumes at least one character when it succeeds. *)
Definition shrinking {G : Type}
    (matcher : option ascii -> text -> option (G * text)) : Prop :=
  forall prev s g r, matcher prev s = Some (g, r) -> length r < length s.

(** No two opening brackets in a row. *)
Fixpoint quiet (s : text) : bool :=
  match s with
  | [] => true
  | c :: s' =>
      negb (chr_eqb c "["%char
            && match s' with
               | c' :: _ => chr_eqb c' "["%char
               | [] => false
               end)
      && quiet s'
  end.

(** The text before a reference that the scan reaches: it holds no pair
    of opening brackets, also not with the first bracket of the reference,
    and does not end with an exclamation mark. *)
Definition before_reference (pre : text) : bool :=
  quiet (pre ++ T "[")
  && negb (bool_decide (last pre = Some "!"%char)).

(** The text after a reference: not an opening parenthesis. *)
Definition after_reference (post : text) : bool :=
  match post with
  | c :: _ => negb (chr_eqb c "("%char)
  | [] => true
  end.

(** The characters of a title or an alias: no newline, no closing bracket,
    no pipe. *)
Definition link_chars (s : text) : bool :=
  forallb (fun c => negb (is_nl c || chr_eqb c "]"%char || chr_eqb c "|"%char))
          s.

(** A reference as it is written: a title, and an alias after a pipe when
    there is one. *)
Definition reference_text (title : text) (alias : option text) : text :=
  match alias with
  | None => title
  | Some a => title ++ T "|" ++ a
  end.

(** The label of the rewritten reference: the title, or the alias without
    the whitespace around it. *)
Definition reference_label (title : text) (alias : option text) : text :=
  match alias with
  | None => title
  | Some a => strip a
  end.

(** What a reference to the note [id] becomes, in the convention of Cosma
    and in the one of Zettlr. *)
Definition rewritten_reference (zettlr : bool) (id label : text) : text :=
  if zettlr then T "[" ++ label ++ T "]([[" ++ id ++ T "]])"
  else T "[[" ++ id ++ T "|" ++ label ++ T "]]".

(** The map of the examples: one note, Alpha. *)
Definition alpha_map : gmap text text :=
  {[ T "Alpha" := T "20240101000001" ]}.

(** The map of two notes where the identifier of one is the title of the
    other. *)
Definition chain_map : gmap text text :=
  <[ T "A" := T "B" ]> {[ T "B" := T "C" ]}.

(** A note with an introduction, then the section of the typed links. *)
Definition typed_note : text :=
  T "intro" ++ [nl] ++ T "## Typed links" ++ [nl] ++ T "- causes [[Fire]]"
    ++ [nl].

(** A folder with a note of type [draft] and a picture, and a loader that
    knows the header of that note. *)
Definition demo_read (file : text) : text :=
  if text_eqb file (T "note.md")
  then T "---" ++ [nl] ++ T "type: draft" ++ [nl] ++ T "---" ++ [nl]
         ++ T "text" ++ [nl]
  else [].

Definition demo_load (front_matter : text) : result value :=
  if text_eqb front_matter (T "type: draft")
  then Ok (VDict [(T "type", VStr false (T "draft"))])
  else Raise YAMLError.

(** A note whose opening line has a space after the hyphens, with a title
    and without an identifier. *)
Definition spaced_note : text :=
  T "--- " ++ [nl] ++ T "title: X" ++ [nl] ++ T "---" ++ [nl] ++ T "body".

(** The same note once [metadata_init] has written it back. *)
Definition spaced_note_written : text :=
  T "---" ++ [nl] ++ T "id: 20240101000001" ++ [nl] ++ T "---" ++ [nl]
    ++ spaced_note.

(** A loader that knows the two headers of the example. *)
Definition spaced_load (front_matter : text) : result value :=
  if text_eqb front_matter (T "title: X")
  then Ok (VDict [(T "title", VStr false (T "X"))])
  else if text_eqb front_matter (T "id: 20240101000001")
       then Ok (VDict [(T "id", VInt 20240101000001)])
       else Raise YAMLError.

(** The text of a document: the opening line, the front matter, the
    closing line, the body. *)
Definition document (front_matter body : text) : text :=
  T "---" ++ [nl] ++ front_matter ++ [nl] ++ T "---" ++ [nl] ++ body.

(** A header of one line, an empty line, the body. *)
Definition blank_line_note : text := document (T "a: b") (nl :: T "Body").

(** A front matter that the pattern gives back as group 1: it starts with
    a character that is not whitespace and none of its lines but the first
    starts with three hyphens. *)
Definition plain_front_matter (front_matter : text) : bool :=
  match front_matter with
  | [] => false
  | c :: _ =>
      negb (isspace c) && negb (is_substring (nl :: T "---") front_matter)
  end.

(** A loader and a dumper for the header of the example. *)
Definition ab_load (front_matter : text) : result value :=
  if text_eqb front_matter (T "a: b")
  then Ok (VDict [(T "a", VStr false (T "b"))])
  else Raise YAMLError.

Definition ab_dump (data : value) : text :=
  match data with
  | VDict [(k, VStr _ v)] => k ++ T ": " ++ v ++ [nl]
  | _ => T "{}" ++ [nl]
  end.

(** No opening bracket; neither an opening nor a closing bracket. *)
Definition open_free (s : text) : bool :=
  forallb (fun c => negb (chr_eqb "["%char c)) s.

Definition bracket_free (s : text) : bool :=
  forallb (fun c => negb (chr_eqb "["%char c || chr_eqb "]"%char c)) s.

(** The extensions of the pattern. *)
Inductive image_ext : Type := Jpg | Jpeg | Png.

Definition ext_text (e : image_ext) : text :=
  match e with
  | Jpg => T ".jpg"
  | Jpeg => T ".jpeg"
  | Png => T ".png"
  end.

(** The two alternatives of the pattern, by the closing they look for. *)
Definition closes_with (close : text -> option (text * text))
    (exts : list image_ext) : Prop :=
  forall s m, close s = Some m ->
    exists e, e ∈ exts /\ prefix_of (ext_text e ++ T "]]") s = Some (snd m)
              /\ fst m = ext_text e.

(** Matchers of a text that starts with an exclamation mark and two
    opening brackets. *)
Definition embed_matcher {G : Type}
    (matcher : option ascii -> text -> option (G * text)) : Prop :=
  forall prev s, prefix_of (T "![[") s = None -> matcher prev s = None.

(** The characters of a title, an alias or an identifier that do not take
    part in the syntax of references. *)
Definition label_chars (s : text) : bool :=
  forallb (fun c => negb (is_nl c || chr_eqb c "]"%char || chr_eqb c "|"%char
                          || chr_eqb "["%char c)) s.

Definition has_embed (s : text) : bool := is_substring (T "![[") s.

(** A body whose references are apart: texts without a pair of opening
    brackets, and between them references that the scan reaches, with
    titles and aliases that hold no bracket, no pipe and no newline. *)
Inductive separated : text -> Prop :=
| separated_text (s : text) :
    quiet s = true -> separated s
| separated_reference (pre title : text) (alias : option text) (post : text) :
    before_reference pre = true ->
    after_reference post = true ->
    label_chars title = true ->
    from_option label_chars true alias = true ->
    reference_text title alias <> [] ->
    separated post ->
    separated (pre ++ T "[[" ++ reference_text title alias ++ T "]]" ++ post).

(** A map whose identifiers are not empty, hold no bracket, no pipe and no
    newline, and are not titles. *)
Definition fresh_ids (title2id : gmap text text) : Prop :=
  forall title id, title2id !! title = Some id ->
    id <> [] /\ label_chars id = true /\ title2id !! id = None.

Arguments has_embed : simpl never.

(** What the first run writes for a reference. *)
Definition rewritten (title2id : gmap text text) (zettlr : bool)
    (title : text) (alias : option text) : text :=
  match title2id !! title with
  | Some id => rewritten_reference zettlr id (reference_label title alias)
  | None => T "[[" ++ reference_text title alias ++ T "]]"
  end.

(** The bodies of the amended claim: references that are apart, or one
    embed of an image in a text without other brackets. *)
Inductive rewritable : text -> Prop :=
| rewritable_separated (body : text) :
    separated body -> rewritable body
| rewritable_embed (pre name post : text) (e : image_ext) :
    open_free pre = true ->
    name <> [] ->
    bracket_free name = true ->
    forallb (fun c => negb (is_nl c)) name = true ->
    bracket_free post = true ->
    rewritable (pre ++ T "![[" ++ name ++ ext_text e ++ T "]]" ++ post).

(** A value as the normaliser leaves it: no null, every string marked for
    quotes, stripped and not empty, every key of a mapping normalised. *)
Fixpoint normal_value (v : value) : bool :=
  match v with
  | VNone => false
  | VStr quoted s =>
      quoted && text_eqb (strip s) s
      && match s with [] => false | _ :: _ => true end
  | VInt _ | VBool _ => true
  | VList l => forallb normal_value l
  | VDict d =>
      forallb (fun kv => text_eqb (_normalize_key (fst kv)) (fst kv)
                         && normal_value (snd kv)) d
  end.

(** An item of a normalised mapping. *)
Definition normal_item (kv : text * value) : bool :=
  text_eqb (_normalize_key (fst kv)) (fst kv) && normal_value (snd kv).

(** How often a character occurs in a text. *)
Definition count_chr (c : ascii) (s : text) : nat :=
  length (List.filter (chr_eqb c) s).

(** The title of a reference: what stands before its first pipe. *)
Definition link_title (link_text : text) : text :=
  hd [] (split_on "|"%char link_text).

(** A note none of whose references names a note of the map. *)
Definition ghost_note (title2id : gmap text text) (content : text) : Prop :=
  forall pre link_text post,
    content = pre ++ T "[[" ++ link_text ++ T "]]" ++ post ->
    title2id !! link_title link_text = None.

(** No hyphen. *)
Definition hyphen_free (s : text) : bool :=
  forallb (fun c => negb (chr_eqb "-"%char c)) s.

(** The characters of the prefix of a typed link: no newline, no opening
    bracket. *)
Definition prefix_chars (s : text) : bool :=
  forallb (fun c => negb (is_nl c || chr_eqb "["%char c)) s.

(** The characters of its destination: no newline, no closing bracket. *)
Definition dest_chars (s : text) : bool :=
  forallb (fun c => negb (is_nl c || chr_eqb "]"%char c)) s.

(** A typed link as an item of a list, and as Cosma reads it. *)
Definition typed_item (prefix dest : text) : text :=
  T "- " ++ prefix ++ T " [[" ++ dest ++ T "]]".

Definition typed_link (prefix dest : text) : text :=
  T "[[" ++ prefix ++ T ":" ++ dest ++ T "]]".

(** The character map of [folder_path_to_type]. *)
Definition type_chr (c : ascii) : ascii :=
  let l := lower_chr c in if chr_eqb l " "%char then "-"%char else l.

(** A relative path as [os.path.relpath] gives it: between its slashes no
    part is empty and no part is a single dot. *)
Definition normal_path (folder_path : text) : bool :=
  forallb (fun part => negb (text_eqb part []) && negb (text_eqb part (T ".")))
          (split_on "/"%char folder_path).

(** A name of ASCII characters without a space. *)
Definition clean_name (file : text) : bool :=
  forallb (fun c => (nat_of_ascii c <? 128) && negb (chr_eqb c " "%char)) file.

(** A folder with one note in a subfolder, and the map from the name of
    the note to that subfolder. *)
Definition vault_files : gmap text text :=
  {[ T "out/Fire.md" := T "Fire burns." ]}.

Definition vault_folders : gmap text text :=
  {[ T "Fire.md" := T "Player Characters" ]}.

(** * Properties *)

(** ** Characters and stripping *)

Lemma chr_eqb_eq (a b : ascii) : chr_eqb a b = true <-> a = b.
Proof. apply Ascii.eqb_eq. Qed.

Lemma chr_eqb_refl (a : ascii) : chr_eqb a a = true.
Proof. apply Ascii.eqb_refl. Qed.

Lemma chr_eqb_neq (a b : ascii) : chr_eqb a b = false <-> a <> b.
Proof. apply Ascii.eqb_neq. Qed.

Lemma chr_eqb_sym (a b : ascii) : chr_eqb a b = chr_eqb b a.
Proof. apply Ascii.eqb_sym. Qed.

Lemma text_eqb_eq (a b : text) : text_eqb a b = true <-> a = b.
Proof. unfold text_eqb. apply bool_decide_eq_true. Qed.

Lemma length_lstrip (s : text) : length (lstrip s) <= length s.
Proof.
  induction s as [|c s IH]; simpl; [lia|].
  destruct (isspace c); simpl; lia.
Qed.

Lemma lstrip_fixed_head (s : text) :
  lstrip s = s -> match s with [] => True | c :: _ => isspace c = false end.
Proof.
  destruct s as [|c s]; simpl; [done|].
  destruct (isspace c) eqn:E; [|done].
  intros H. pose proof (length_lstrip s) as L. rewrite H in L. simpl in L. lia.
Qed.

Lemma lstrip_idem (s : text) : lstrip (lstrip s) = lstrip s.
Proof.
  induction s as [|c s IH]; simpl; [done|].
  destruct (isspace c) eqn:E; [done|]. simpl. by rewrite E.
Qed.

Lemma lstrip_app_solid (a b : text) (c : ascii) :
  isspace c = false -> lstrip (a ++ c :: b) = lstrip a ++ c :: b.
Proof.
  intros Hc. induction a as [|x a IH]; simpl; [by rewrite Hc|].
  by destruct (isspace x).
Qed.

Lemma rstrip_cons_solid (c : ascii) (s : text) :
  isspace c = false -> rstrip (c :: s) = c :: rstrip s.
Proof.
  intros Hc. unfold rstrip. simpl.
  rewrite (lstrip_app_solid (rev s) [] c Hc), rev_app_distr. done.
Qed.

Lemma strip_stripped (s : text) : stripped s -> strip s = s.
Proof.
  intros [H1 H2]. unfold strip, rstrip. rewrite H1, H2. apply rev_involutive.
Qed.

Lemma stripped_strip (s : text) : stripped (strip s).
Proof.
  unfold stripped, strip. split.
  - pose proof (lstrip_idem s) as Hi.
    pose proof (lstrip_fixed_head _ Hi) as Hh.
    destruct (lstrip s) as [|c t]; [done|].
    rewrite (rstrip_cons_solid c t Hh). simpl. by rewrite Hh.
  - unfold rstrip. rewrite rev_involutive. apply lstrip_idem.
Qed.

Lemma strip_idem (s : text) : strip (strip s) = strip s.
Proof. apply strip_stripped, stripped_strip. Qed.

Lemma lstrip_map_fixed (f : ascii -> ascii) (s : text) :
  (forall c, isspace c = false -> isspace (f c) = false) ->
  lstrip s = s -> lstrip (map f s) = map f s.
Proof.
  intros Hf H. pose proof (lstrip_fixed_head s H) as Hh.
  destruct s as [|c s]; simpl; [done|]. by rewrite (Hf c Hh).
Qed.

Lemma stripped_map (f : ascii -> ascii) (s : text) :
  (forall c, isspace c = false -> isspace (f c) = false) ->
  stripped s -> stripped (map f s).
Proof.
  intros Hf [H1 H2]. split.
  - by apply lstrip_map_fixed.
  - rewrite <- map_rev. by apply lstrip_map_fixed.
Qed.

Lemma _normalize_key_map (key : text) :
  _normalize_key key = map key_chr (strip key).
Proof. unfold _normalize_key, lower. by rewrite map_map. Qed.

Lemma key_chr_idem (c : ascii) : key_chr (key_chr c) = key_chr c.
Proof. destruct c as [[] [] [] [] [] [] [] []]; vm_compute; reflexivity. Qed.

Lemma key_chr_solid (c : ascii) :
  isspace c = false -> isspace (key_chr c) = false.
Proof. destruct c as [[] [] [] [] [] [] [] []]; vm_compute; done. Qed.

Lemma _normalize_key_idem (key : text) :
  _normalize_key (_normalize_key key) = _normalize_key key.
Proof.
  rewrite !_normalize_key_map.
  rewrite (strip_stripped (map key_chr (strip key))).
  - rewrite map_map. apply map_ext. intros c. apply key_chr_idem.
  - apply stripped_map; [apply key_chr_solid | apply stripped_strip].
Qed.

(** ** Header normaliser *)

(** Induction on a value with its elements and entries. *)
Section ValueInd.
Variable P : value -> Prop.
Hypothesis HNone : P VNone.
Hypothesis HStr : forall q s, P (VStr q s).
Hypothesis HInt : forall z, P (VInt z).
Hypothesis HBool : forall b, P (VBool b).
Hypothesis HList : forall l, Forall P l -> P (VList l).
Hypothesis HDict : forall d, Forall (fun kv => P (snd kv)) d -> P (VDict d).

Fixpoint value_nested_ind (v : value) : P v :=
  match v with
  | VNone => HNone
  | VStr q s => HStr q s
  | VInt z => HInt z
  | VBool b => HBool b
  | VList l =>
      HList l
        ((fix elements (l : list value) : Forall P l :=
            match l with
            | [] => Forall_nil_2 P
            | x :: l' => Forall_cons_2 P x l' (value_nested_ind x) (elements l')
            end) l)
  | VDict d =>
      HDict d
        ((fix entries (d : list (text * value))
            : Forall (fun kv => P (snd kv)) d :=
            match d with
            | [] => Forall_nil_2 _
            | kv :: d' =>
                Forall_cons_2 (fun kv => P (snd kv)) kv d'
                  (value_nested_ind (snd kv)) (entries d')
            end) d)
  end.
End ValueInd.

Section Dict.
Context {V : Type}.
Implicit Types (d : list (text * V)) (k : text) (v : V).

Lemma dict_set_fresh d k v :
  k ∉ map fst d -> dict_set d k v = d ++ [(k, v)].
Proof.
  induction d as [|[k' v'] d IH]; simpl; intros Hk; [done|].
  apply not_elem_of_cons in Hk as [Hne Hk].
  destruct (text_eqb k' k) eqn:E.
  - apply text_eqb_eq in E. congruence.
  - by rewrite IH.
Qed.

Lemma dict_set_keys d k v :
  map fst (dict_set d k v)
  = if bool_decide (k ∈ map fst d) then map fst d else map fst d ++ [k].
Proof.
  induction d as [|[k' v'] d IH]; simpl; [done|].
  destruct (text_eqb k' k) eqn:E.
  - apply text_eqb_eq in E. subst. simpl.
    rewrite bool_decide_eq_true_2; [done | apply elem_of_cons; by left].
  - simpl. rewrite IH.
    assert (k' <> k) as Hne.
    { intros ->. unfold text_eqb in E.
      by rewrite bool_decide_eq_true_2 in E. }
    destruct (bool_decide (k ∈ map fst d)) eqn:Hin.
    + apply bool_decide_eq_true in Hin.
      rewrite bool_decide_eq_true_2; [done | apply elem_of_cons; by right].
    + apply bool_decide_eq_false in Hin.
      rewrite bool_decide_eq_false_2; [done|].
      intros [?|?]%elem_of_cons; congruence.
Qed.

Lemma dict_set_NoDup d k v :
  NoDup (map fst d) -> NoDup (map fst (dict_set d k v)).
Proof.
  intros Hd. rewrite dict_set_keys. case_bool_decide as Hin; [done|].
  apply NoDup_app. split_and!; [done| |apply NoDup_singleton].
  intros x Hx [->|[]%elem_of_nil]%elem_of_cons. done.
Qed.

Lemma dict_set_Forall (Q : text * V -> Prop) d k v :
  Forall Q d -> Q (k, v) -> Forall Q (dict_set d k v).
Proof.
  intros Hd Hkv. induction Hd as [|[k' v'] d Hx Hd IH]; simpl.
  - by constructor.
  - destruct (text_eqb k' k); by constructor.
Qed.

Lemma fold_dict_set_fresh (items acc : list (text * V)) :
  NoDup (map fst (acc ++ items)) ->
  fold_left (fun d kv => dict_set d (fst kv) (snd kv)) items acc
  = acc ++ items.
Proof.
  revert acc. induction items as [|[k v] items IH]; intros acc Hnd; simpl.
  - by rewrite app_nil_r.
  - rewrite dict_set_fresh.
    + rewrite IH; rewrite <- app_assoc; done.
    + rewrite map_app in Hnd. apply NoDup_app in Hnd as (_ & Hd & _).
      intros Hin. apply (Hd k Hin). simpl. apply elem_of_cons. by left.
Qed.

Lemma fold_dict_set_NoDup (items acc : list (text * V)) :
  NoDup (map fst acc) ->
  NoDup (map fst
           (fold_left (fun d kv => dict_set d (fst kv) (snd kv)) items acc)).
Proof.
  revert acc. induction items as [|[k v] items IH]; intros acc Hnd; simpl.
  - done.
  - by apply IH, dict_set_NoDup.
Qed.

Lemma fold_dict_set_Forall (Q : text * V -> Prop)
    (items acc : list (text * V)) :
  Forall Q acc -> Forall Q items ->
  Forall Q (fold_left (fun d kv => dict_set d (fst kv) (snd kv)) items acc).
Proof.
  revert acc. induction items as [|[k v] items IH]; intros acc Ha Hi; simpl.
  - done.
  - apply Forall_cons in Hi as [Hkv Hi].
    apply IH; [by apply dict_set_Forall | done].
Qed.

(** A dictionary is what its own items build. *)
Lemma dict_of_items_fixed d : NoDup (map fst d) -> dict_of_items d = d.
Proof. intros Hd. unfold dict_of_items. by rewrite fold_dict_set_fresh. Qed.

Lemma dict_of_items_NoDup (items : list (text * V)) :
  NoDup (map fst (dict_of_items items)).
Proof. apply fold_dict_set_NoDup. simpl. apply NoDup_nil_2. Qed.

Lemma dict_of_items_Forall (Q : text * V -> Prop) (items : list (text * V)) :
  Forall Q items -> Forall Q (dict_of_items items).
Proof. intros H. by apply fold_dict_set_Forall. Qed.
End Dict.

Lemma normalize_header_items (data : list (text * value)) :
  normalize_header data = dict_of_items (map normalize_item data).
Proof.
  unfold normalize_header, dict_of_items.
  generalize (@nil (text * value)) as acc.
  induction data as [|kv data IH]; intros acc; simpl; [done|]. apply IH.
Qed.

(** Normalising the items of a dictionary a second time changes nothing
    when it changes none of the values. *)
Lemma normalize_items_twice (d : list (text * value)) :
  Forall (fun kv => _normalize_value (_normalize_value (snd kv))
                    = _normalize_value (snd kv)) d ->
  dict_of_items (map normalize_item (dict_of_items (map normalize_item d)))
  = dict_of_items (map normalize_item d).
Proof.
  intros Hd.
  set (d1 := dict_of_items (map normalize_item d)).
  assert (Forall (fun kv => normalize_item kv = kv) d1) as Hfix.
  { apply dict_of_items_Forall. apply Forall_map.
    eapply Forall_impl; [exact Hd|]. intros [k v] Hv. simpl in *.
    unfold normalize_item. simpl. by rewrite _normalize_key_idem, Hv. }
  assert (map normalize_item d1 = d1) as ->.
  { clear -Hfix. induction Hfix as [|kv l Hkv _ IH]; simpl; [done|].
    by rewrite Hkv, IH. }
  apply dict_of_items_fixed, dict_of_items_NoDup.
Qed.

Lemma _normalize_value_idem (val : value) :
  _normalize_value (_normalize_value val) = _normalize_value val.
Proof.
  induction val as [| q s | z | b | l IH | d IH] using value_nested_ind.
  - done.
  - simpl. destruct (strip s) as [|c t] eqn:E; [done|].
    simpl. rewrite <- E, strip_idem, E. done.
  - done.
  - done.
  - simpl. f_equal. rewrite map_map.
    induction IH as [|x l Hx _ IHl]; simpl; [done|]. by rewrite Hx, IHl.
  - simpl. f_equal. apply (normalize_items_twice d IH).
Qed.

(** C7.  Applying the header normaliser to a header it has produced gives
    that header again: the keys are already stripped, lowered and free of
    spaces, no two of them are equal, and every value is one that
    [_normalize_value] leaves as it is. *)
Theorem normalize_header_idempotent (data : list (text * value)) :
  normalize_header (normalize_header data) = normalize_header data.
Proof.
  rewrite !normalize_header_items. apply normalize_items_twice.
  apply Forall_forall. intros kv _. apply _normalize_value_idem.
Qed.

(** ** Scans *)

Lemma prefix_of_Some (p s r : text) : prefix_of p s = Some r -> s = p ++ r.
Proof.
  revert s. induction p as [|a p IH]; intros [|b s]; simpl; try congruence.
  destruct (chr_eqb a b) eqn:E; [|done].
  apply chr_eqb_eq in E. subst. intros H. by rewrite (IH _ H).
Qed.

Lemma prefix_of_app (p r : text) : prefix_of p (p ++ r) = Some r.
Proof. induction p as [|a p IH]; simpl; [done|]. by rewrite chr_eqb_refl. Qed.

Section ScanFacts.
Context {G : Type}.
Variable matcher : option ascii -> text -> option (G * text).
Hypothesis matcher_shrinks : shrinking matcher.

(** Fuel beyond the length of the text changes nothing. *)
Lemma re_sub_fuel (repl : G -> result text) (fuel fuel' : nat)
    (prev : option ascii) (s : text) :
  length s <= fuel -> length s <= fuel' ->
  re_sub matcher repl fuel prev s = re_sub matcher repl fuel' prev s.
Proof.
  revert fuel' prev s.
  induction fuel as [|fuel IH]; intros [|fuel'] prev [|c s] H1 H2;
    simpl in *; try done; try lia.
  destruct (matcher prev (c :: s)) as [[g r]|] eqn:E.
  - apply matcher_shrinks in E. simpl in E.
    rewrite (IH fuel'); [done | lia | lia].
  - rewrite (IH fuel'); [done | lia | lia].
Qed.

Lemma re_finditer_fuel (fuel fuel' : nat) (prev : option ascii) (s : text) :
  length s <= fuel -> length s <= fuel' ->
  re_finditer matcher fuel prev s = re_finditer matcher fuel' prev s.
Proof.
  revert fuel' prev s.
  induction fuel as [|fuel IH]; intros [|fuel'] prev [|c s] H1 H2;
    simpl in *; try done; try lia.
  destruct (matcher prev (c :: s)) as [[g r]|] eqn:E.
  - apply matcher_shrinks in E. simpl in E.
    rewrite (IH fuel'); [done | lia | lia].
  - rewrite (IH fuel'); [done | lia | lia].
Qed.

(** With a callback that does not raise, a scan with fuel for every
    character returns. *)
Lemma re_sub_total (repl : G -> result text) (fuel : nat)
    (prev : option ascii) (s : text) :
  (forall g, exists out, repl g = Ok out) ->
  length s <= fuel ->
  exists out, re_sub matcher repl fuel prev s = Ok out.
Proof.
  intros Hrepl. revert prev s.
  induction fuel as [|fuel IH]; intros prev [|c s] H;
    simpl in *; try lia; try (by eexists).
  destruct (matcher prev (c :: s)) as [[g r]|] eqn:E.
  - apply matcher_shrinks in E. simpl in E.
    destruct (Hrepl g) as [out ->].
    destruct (IH (last (consumed (c :: s) r)) r) as [rest ->]; [lia|].
    by eexists.
  - destruct (IH (Some c) s) as [rest ->]; [lia|]. by eexists.
Qed.
End ScanFacts.

(** ** Reference rewriter: the matcher *)

Lemma link_close_Some (s r : text) :
  link_close s = Some r -> s = T "]]" ++ r.
Proof.
  unfold link_close. destruct (prefix_of (T "]]") s) as [r'|] eqn:E; [|done].
  apply prefix_of_Some in E. subst.
  destruct r' as [|c r']; [congruence|].
  destruct (chr_eqb c "("%char); congruence.
Qed.

Lemma link_text_lazy_Some (s g r : text) :
  link_text_lazy s = Some (g, r) -> s = g ++ T "]]" ++ r /\ g <> [].
Proof.
  revert g r. induction s as [|c s IH]; intros g r; simpl; [done|].
  destruct (is_nl c); [done|].
  destruct (link_close s) as [r'|] eqn:E.
  - intros [= <- <-]. apply link_close_Some in E. by subst.
  - destruct (link_text_lazy s) as [[g' r']|]; [|done].
    intros [= <- <-]. destruct (IH g' r' eq_refl) as [-> _]. done.
Qed.

Lemma wiki_link_matcher_Some (prev : option ascii) (s g r : text) :
  wiki_link_matcher prev s = Some (g, r) ->
  s = T "[[" ++ g ++ T "]]" ++ r /\ g <> [].
Proof.
  unfold wiki_link_matcher. intros H.
  assert (prefix_of (T "[[") s ≫= link_text_lazy = Some (g, r)) as H'.
  { destruct prev as [p|]; [|done]. by destruct (chr_eqb p "!"%char). }
  destruct (prefix_of (T "[[") s) as [s'|] eqn:E; [|done]. simpl in H'.
  apply prefix_of_Some in E. apply link_text_lazy_Some in H' as [-> Hg].
  by subst.
Qed.

Lemma wiki_link_matcher_shrinks : shrinking wiki_link_matcher.
Proof.
  intros prev s g r H. apply wiki_link_matcher_Some in H as [-> _].
  rewrite !length_app. simpl. lia.
Qed.

(** The character before a match only matters when it is an exclamation
    mark. *)
Lemma wiki_link_matcher_prev (p q : option ascii) (s : text) :
  p <> Some "!"%char -> q <> Some "!"%char ->
  wiki_link_matcher p s = wiki_link_matcher q s.
Proof.
  intros Hp Hq. unfold wiki_link_matcher.
  destruct p as [p|], q as [q|]; try done.
  - destruct (chr_eqb p "!"%char) eqn:E1.
    { apply chr_eqb_eq in E1. congruence. }
    destruct (chr_eqb q "!"%char) eqn:E2; [|done].
    apply chr_eqb_eq in E2. congruence.
  - destruct (chr_eqb p "!"%char) eqn:E1; [|done].
    apply chr_eqb_eq in E1. congruence.
  - destruct (chr_eqb q "!"%char) eqn:E2; [|done].
    apply chr_eqb_eq in E2. congruence.
Qed.

Lemma re_sub_wiki_prev (repl : text -> result text) (fuel : nat)
    (p q : option ascii) (s : text) :
  p <> Some "!"%char -> q <> Some "!"%char ->
  re_sub wiki_link_matcher repl fuel p s
  = re_sub wiki_link_matcher repl fuel q s.
Proof.
  intros Hp Hq. destruct fuel as [|fuel], s as [|c s]; try done. simpl.
  by rewrite (wiki_link_matcher_prev p q (c :: s) Hp Hq).
Qed.

(** ** Reference rewriter: one reference in its context *)

Lemma consumed_app (a r : text) : consumed (a ++ r) r = a.
Proof.
  unfold consumed. rewrite length_app.
  rewrite Nat.add_sub. apply take_app_length.
Qed.

Lemma link_close_after (post : text) :
  after_reference post = true -> link_close (T "]]" ++ post) = Some post.
Proof.
  intros H. unfold link_close. rewrite prefix_of_app.
  destruct post as [|c post]; [done|]. simpl in H.
  destruct (chr_eqb c "("%char); done.
Qed.

Lemma link_close_other (c : ascii) (s : text) :
  chr_eqb c "]"%char = false -> link_close (c :: s) = None.
Proof.
  intros H. unfold link_close. cbn [T String.list_ascii_of_string prefix_of].
  by rewrite chr_eqb_sym, H.
Qed.

(** The lazy group stops at the first closing brackets. *)
Lemma link_text_lazy_exact (link_text post : text) :
  link_text <> [] ->
  forallb (fun c => negb (is_nl c || chr_eqb c "]"%char)) link_text = true ->
  after_reference post = true ->
  link_text_lazy (link_text ++ T "]]" ++ post) = Some (link_text, post).
Proof.
  intros Hne Hchars Hpost.
  induction link_text as [|c l IH]; [done|].
  simpl in Hchars. apply andb_prop in Hchars as [Hc Hl].
  apply negb_true_iff, orb_false_iff in Hc as [Hnl Hbr].
  change ((c :: l) ++ T "]]" ++ post) with (c :: (l ++ T "]]" ++ post)).
  cbn [link_text_lazy]. rewrite Hnl.
  destruct l as [|c' l].
  - change ([] ++ T "]]" ++ post) with (T "]]" ++ post).
    by rewrite (link_close_after post Hpost).
  - assert (chr_eqb c' "]"%char = false) as Hc'.
    { simpl in Hl. apply andb_prop in Hl as [Hc' _].
      by apply negb_true_iff, orb_false_iff in Hc' as [_ ?]. }
    change ((c' :: l) ++ T "]]" ++ post) with (c' :: (l ++ T "]]" ++ post)).
    rewrite (link_close_other c' _ Hc').
    change (c' :: (l ++ T "]]" ++ post)) with ((c' :: l) ++ T "]]" ++ post).
    by rewrite IH.
Qed.

Lemma link_chars_weaken (s : text) :
  link_chars s = true ->
  forallb (fun c => negb (is_nl c || chr_eqb c "]"%char)) s = true.
Proof.
  unfold link_chars. intros H. apply forallb_forall. intros c Hc.
  eapply forallb_forall in H; [|exact Hc]. simpl in H.
  apply negb_true_iff, orb_false_iff in H as [H _].
  by apply negb_true_iff.
Qed.

Lemma link_chars_no_pipe (s : text) :
  link_chars s = true -> contains_chr "|"%char s = false.
Proof.
  unfold link_chars, contains_chr. induction s as [|c s IH]; simpl; [done|].
  intros [Hc Hs]%andb_prop. rewrite (IH Hs), orb_false_r.
  apply negb_true_iff, orb_false_iff in Hc as [_ Hc].
  by rewrite chr_eqb_sym.
Qed.

Lemma split_on_none (sep : ascii) (s : text) :
  contains_chr sep s = false -> split_on sep s = [s].
Proof.
  unfold contains_chr. induction s as [|c s IH]; simpl; [done|].
  intros [Hc Hs]%orb_false_iff. rewrite (IH Hs).
  by rewrite chr_eqb_sym, Hc.
Qed.

Lemma split_on_one (sep : ascii) (a b : text) :
  contains_chr sep a = false -> contains_chr sep b = false ->
  split_on sep (a ++ sep :: b) = [a; b].
Proof.
  intros Ha Hb. unfold contains_chr in Ha.
  induction a as [|c a IH]; simpl.
  - by rewrite chr_eqb_refl, (split_on_none sep b Hb).
  - simpl in Ha. apply orb_false_iff in Ha as [Hc Ha]. rewrite (IH Ha).
    by rewrite chr_eqb_sym, Hc.
Qed.

Lemma contains_chr_app (sep : ascii) (a b : text) :
  contains_chr sep (a ++ b) = contains_chr sep a || contains_chr sep b.
Proof. unfold contains_chr. apply existsb_app. Qed.

(** The scan passes over a text without a pair of opening brackets. *)
Lemma re_sub_wiki_quiet (repl : text -> result text) (pre s : text)
    (fuel : nat) (prev : option ascii) :
  quiet (pre ++ T "[") = true ->
  length (pre ++ "["%char :: s) <= fuel ->
  re_sub wiki_link_matcher repl fuel prev (pre ++ "["%char :: s)
  = rest ← re_sub wiki_link_matcher repl (fuel - length pre)
             (from_option Some prev (last pre)) ("["%char :: s);
    Ok (pre ++ rest).
Proof.
  revert fuel prev. induction pre as [|c pre IH]; intros fuel prev Hq Hf.
  - simpl. rewrite Nat.sub_0_r.
    by destruct (re_sub wiki_link_matcher repl fuel prev ("["%char :: s)).
  - destruct fuel as [|fuel]; [simpl in Hf; lia|].
    change ((c :: pre) ++ "["%char :: s) with (c :: (pre ++ "["%char :: s)).
    cbn [re_sub].
    assert (wiki_link_matcher prev (c :: pre ++ "["%char :: s) = None) as ->.
    { assert (prefix_of (T "[[") (c :: pre ++ "["%char :: s) = None) as Hp.
      { simpl in Hq. apply andb_prop in Hq as [Hc _].
        apply negb_true_iff in Hc.
        cbn [T String.list_ascii_of_string prefix_of].
        rewrite (chr_eqb_sym "["%char c).
        destruct (chr_eqb c "["%char) eqn:E1; [|done].
        simpl in Hc. destruct pre as [|c' pre].
        - simpl in Hc. by rewrite chr_eqb_refl in Hc.
        - simpl in Hc. simpl. by rewrite (chr_eqb_sym "["%char c'), Hc. }
      unfold wiki_link_matcher. rewrite Hp.
      destruct prev as [p|]; [|done]. by destruct (chr_eqb p "!"%char). }
    simpl in Hq. apply andb_prop in Hq as [_ Hq].
    rewrite (IH fuel (Some c) Hq); [|simpl in Hf; lia].
    replace (from_option Some (Some c) (last pre))
      with (from_option Some prev (last (c :: pre))).
    2:{ destruct pre as [|c' pre]; [done|]. rewrite last_cons.
        by destruct (last (c' :: pre)). }
    simpl.
    by destruct (re_sub wiki_link_matcher repl (fuel - length pre)
                   (from_option Some prev (last (c :: pre))) ("["%char :: s)).
Qed.

Lemma last_reference (link_text : text) :
  last (T "[[" ++ link_text ++ T "]]") = Some "]"%char.
Proof.
  change (T "]]") with ([("]"%char : ascii)] ++ ["]"%char]).
  rewrite !app_assoc. apply last_snoc.
Qed.

(** A reference that the scan reaches is handed to the callback, and the
    scan goes on after it. *)
Lemma sub_wiki_links_reference (title2id : gmap text text) (zettlr : bool)
    (pre link_text post : text) :
  before_reference pre = true ->
  link_text <> [] ->
  forallb (fun c => negb (is_nl c || chr_eqb c "]"%char)) link_text = true ->
  after_reference post = true ->
  sub_wiki_links title2id zettlr (pre ++ T "[[" ++ link_text ++ T "]]" ++ post)
  = out ← replace_wiki_link title2id zettlr link_text;
    rest ← sub_wiki_links title2id zettlr post;
    Ok (pre ++ out ++ rest).
Proof.
  intros Hpre Hne Hchars Hpost. unfold sub_wiki_links, before_reference in *.
  apply andb_prop in Hpre as [Hq Hbang].
  apply negb_true_iff, bool_decide_eq_false in Hbang.
  set (repl := replace_wiki_link title2id zettlr).
  set (s := "["%char :: link_text ++ T "]]" ++ post).
  change (pre ++ T "[[" ++ link_text ++ T "]]" ++ post)
    with (pre ++ "["%char :: s).
  rewrite (re_sub_wiki_quiet repl pre s _ None Hq); [|done].
  assert (length (pre ++ "["%char :: s) - length pre
          = S (length s)) as ->.
  { rewrite length_app. simpl. lia. }
  assert (from_option Some None (last pre) <> Some "!"%char) as Hprev.
  { destruct (last pre); simpl; congruence. }
  assert (length post <= length s) as Hlen.
  { unfold s. simpl. rewrite !length_app. simpl. lia. }
  generalize dependent (length s). intros n Hlen.
  cbn [re_sub].
  assert (wiki_link_matcher (from_option Some None (last pre))
            ("["%char :: s) = Some (link_text, post)) as ->.
  { rewrite (wiki_link_matcher_prev _ None _ Hprev); [|done].
    unfold wiki_link_matcher, s.
    change ("["%char :: "["%char :: link_text ++ T "]]" ++ post)
      with (T "[[" ++ (link_text ++ T "]]" ++ post)).
    rewrite prefix_of_app. simpl.
    by apply link_text_lazy_exact. }
  destruct (repl link_text) as [out|e]; [|done]. rewrite bind_Ok.
  assert (consumed ("["%char :: s) post = T "[[" ++ link_text ++ T "]]") as ->.
  { unfold s.
    change ("["%char :: "["%char :: link_text ++ T "]]" ++ post)
      with (T "[[" ++ link_text ++ T "]]" ++ post).
    transitivity (consumed ((T "[[" ++ link_text ++ T "]]") ++ post) post);
      [by rewrite <- !app_assoc | apply consumed_app]. }
  rewrite last_reference.
  rewrite (re_sub_wiki_prev repl _ (Some "]"%char) None); [|done|done].
  rewrite (re_sub_fuel _ wiki_link_matcher_shrinks repl n (length post));
    [|done|done].
  by destruct (re_sub wiki_link_matcher repl (length post) None post).
Qed.

Lemma replace_wiki_link_reference (title2id : gmap text text) (zettlr : bool)
    (title : text) (alias : option text) :
  link_chars title = true ->
  from_option link_chars true alias = true ->
  replace_wiki_link title2id zettlr (reference_text title alias)
  = Ok (match title2id !! title with
        | Some id => rewritten_reference zettlr id (reference_label title alias)
        | None => T "[[" ++ reference_text title alias ++ T "]]"
        end).
Proof.
  intros Ht Ha. unfold replace_wiki_link, rewritten_reference.
  destruct alias as [a|]; cbn [reference_text reference_label from_option] in *.
  - assert (contains_chr "|"%char (title ++ T "|" ++ a) = true) as ->.
    { rewrite contains_chr_app. apply orb_true_iff. by right. }
    change (T "|" ++ a) with ("|"%char :: a).
    rewrite (split_on_one "|"%char title a);
      [|by apply link_chars_no_pipe|by apply link_chars_no_pipe].
    destruct (title2id !! title); [|done]. by destruct zettlr.
  - rewrite (link_chars_no_pipe title Ht).
    destruct (title2id !! title); [|done]. by destruct zettlr.
Qed.

Lemma reference_text_chars (title : text) (alias : option text) :
  link_chars title = true ->
  from_option link_chars true alias = true ->
  forallb (fun c => negb (is_nl c || chr_eqb c "]"%char))
          (reference_text title alias) = true.
Proof.
  intros Ht Ha.
  destruct alias as [a|]; cbn [reference_text from_option] in *.
  - rewrite !forallb_app, (link_chars_weaken title Ht),
      (link_chars_weaken a Ha). done.
  - by apply link_chars_weaken.
Qed.





(** The scenarios of the default and of the other convention. *)
Example alpha_default :
  replace_wiki_links alpha_map false (T "[[Alpha]]")
  = Ok (T "[[20240101000001|Alpha]]").
Proof. vm_compute. reflexivity. Qed.

Example alpha_zettlr :
  replace_wiki_links alpha_map true (T "[[Alpha]]")
  = Ok (T "[Alpha]([[20240101000001]])").
Proof. vm_compute. reflexivity. Qed.

Example beta_ghost :
  replace_wiki_links alpha_map false (T "[[Beta|B]]") = Ok (T "[[Beta|B]]").
Proof. vm_compute. reflexivity. Qed.

Example photo_png :
  replace_wiki_links alpha_map false (T "![[photo.png]]")
  = Ok (T "![](photo.png)").
Proof. vm_compute. reflexivity. Qed.

(** C8.  A reference with two pipes makes the callback unpack three parts
    into two names: the exception leaves [replace_wiki_links], whatever the
    map and the convention. *)
Theorem wiki_two_pipes_raises (title2id : gmap text text) (zettlr : bool) :
  replace_wiki_links title2id zettlr (T "[[a|b|c]]") = Raise ValueError.
Proof. reflexivity. Qed.



(** ** Typed link recoder *)

Example causes_fire :
  transform_typed_links None (T "- causes [[Fire]]") = T "[[causes:Fire]]".
Proof. vm_compute. reflexivity. Qed.

(** C9.  In scoped mode the match starts at the newline before the
    heading, and the text put in its place starts at the heading: the end of
    the line before the section, which is outside it, is lost. *)
Theorem typed_section_joins_previous_line :
  transform_typed_links (Some (T "## Typed links")) typed_note
  = T "intro## Typed links" ++ [nl] ++ T "[[causes:Fire]]" ++ [nl] ++ [nl]
  /\ prefix_of (T "intro" ++ [nl])
       (transform_typed_links (Some (T "## Typed links")) typed_note) = None.
Proof. split; vm_compute; reflexivity. Qed.

(** ** Selection filter *)

Lemma endswith_last (file suffix : text) (c : ascii) :
  endswith file (suffix ++ [c]) = true -> last file = Some c.
Proof.
  unfold endswith. rewrite bool_decide_eq_true, rev_app_distr. simpl.
  intros [r Hr]. destruct (rev file) as [|b l] eqn:E; [done|].
  destruct (chr_eqb c b) eqn:Ec; [|done]. apply chr_eqb_eq in Ec. subst b.
  rewrite <- (rev_involutive file), E. simpl. apply last_snoc.
Qed.

(** A Markdown file is not an image. *)
Lemma md_not_image (file : text) :
  endswith file (T ".md") = true -> is_image file = false.
Proof.
  intros Hmd. apply (endswith_last file (T ".m") "d"%char) in Hmd.
  unfold is_image.
  destruct (endswith file (T ".jpg")) eqn:E1.
  { apply (endswith_last file (T ".jp") "g"%char) in E1. congruence. }
  destruct (endswith file (T ".jpeg")) eqn:E2.
  { apply (endswith_last file (T ".jpe") "g"%char) in E2. congruence. }
  destruct (endswith file (T ".png")) eqn:E3; [|done].
  apply (endswith_last file (T ".pn") "g"%char) in E3. congruence.
Qed.

Section FilterFacts.
Variable safe_load : text -> result value.
Variable read : text -> text.
Variable type tags : option text.

(** A turn of the loop appends an image, and nothing else than the file
    of the turn. *)
Lemma filter_file_image (file : text) (selected : list text) :
  filter_file safe_load read type tags file = Ok selected ->
  is_image file = true -> selected = [file].
Proof.
  intros H Himg. unfold filter_file in H. rewrite Himg in H.
  destruct (endswith file (T ".md")) eqn:Emd; [|congruence].
  apply md_not_image in Emd. congruence.
Qed.

(** An image is selected when there is no Markdown file to read. *)
Lemma filter_file_image_total (file : text) :
  is_image file = true ->
  filter_file safe_load read type tags file = Ok [file].
Proof.
  intros Himg. unfold filter_file. rewrite Himg.
  destruct (endswith file (T ".md")) eqn:Emd; [|done].
  apply md_not_image in Emd. congruence.
Qed.

(** C10.  Whenever the filter returns, every image of the list it was
    given is in the list it returns, whatever the type and the tags asked
    for and whatever the Markdown files hold. *)
Theorem filter_files_keeps_images (files selected : list text)
    (file : text) :
  filter_files safe_load read type tags files = Ok selected ->
  file ∈ files ->
  is_image file = true ->
  file ∈ selected.
Proof.
  revert selected.
  induction files as [|f files IH]; intros selected H Hin Himg.
  - by apply elem_of_nil in Hin.
  - simpl in H.
    destruct (filter_file safe_load read type tags f) as [sel|e] eqn:Ef;
      [|done].
    rewrite bind_Ok in H.
    destruct (filter_files safe_load read type tags files) as [rest|e]
      eqn:Er; [|done].
    rewrite bind_Ok in H. injection H as <-.
    apply elem_of_app. apply elem_of_cons in Hin as [->|Hin].
    + left. rewrite (filter_file_image f sel Ef Himg).
      apply elem_of_cons. by left.
    + right. by apply IH.
Qed.
End FilterFacts.

Lemma filter_files_keeps_images_witness :
  filter_files demo_load demo_read (Some (T "article")) (Some (T "physics"))
    [T "note.md"; T "photo.png"] = Ok [T "photo.png"]
  /\ T "photo.png" ∈ [T "photo.png"].
Proof.
  assert (filter_files demo_load demo_read (Some (T "article"))
            (Some (T "physics")) [T "note.md"; T "photo.png"]
          = Ok [T "photo.png"]) as H by (vm_compute; reflexivity).
  split; [exact H|].
  apply (filter_files_keeps_images demo_load demo_read (Some (T "article"))
           (Some (T "physics")) [T "note.md"; T "photo.png"]
           [T "photo.png"] (T "photo.png") H).
  - apply elem_of_cons. right. apply elem_of_cons. by left.
  - vm_compute. reflexivity.
Defined.

(** ** Identity assigner *)

Section IdentityFacts.
Variable safe_load : text -> result value.
Variable creation_stamp : text -> text.
Hypothesis load_title :
  safe_load (T "title: X") = Ok (VDict [(T "title", VStr false (T "X"))]).
Hypothesis load_id :
  safe_load (T "id: 20240101000001")
  = Ok (VDict [(T "id", VInt 20240101000001)]).

Lemma spaced_note_parsed :
  parse_yaml_front_matter safe_load spaced_note
  = Ok (VDict [(T "title", VStr false (T "X"))], T "body").
Proof.
  unfold parse_yaml_front_matter.
  assert (front_matter_match spaced_note = Some (T "title: X", T "body"))
    as -> by (vm_compute; reflexivity).
  by rewrite load_title.
Qed.

Lemma spaced_note_written_parsed :
  parse_yaml_front_matter safe_load spaced_note_written
  = Ok (VDict [(T "id", VInt 20240101000001)], spaced_note).
Proof.
  unfold parse_yaml_front_matter.
  assert (front_matter_match spaced_note_written
          = Some (T "id: 20240101000001", spaced_note))
    as -> by (vm_compute; reflexivity).
  by rewrite load_id.
Qed.

(** C2.  The note has a title, so none is added; it has no identifier, and
    the strict pattern of [metadata_init] does not see its header, so the
    identifier goes into a new block before the text.  The header of the
    file is then that new block: it has an identifier and no title. *)
Theorem metadata_init_orphans_title :
  metadata_init safe_load false creation_stamp
    {[ T "note.md" := spaced_note ]} 20240101000000 [T "note.md"]
  = Ok (RunState {[ T "note.md" := spaced_note_written ]} 20240101000001
          [(VStr false (T "X"), VInt 20240101000001)])
  /\ (parsed ← parse_yaml_front_matter safe_load spaced_note_written;
      front_matter_get (fst (parsed : value * text)) (T "title"))
     = Ok VNone.
Proof.
  split.
  - unfold metadata_init. cbn [metadata_init_from].
    unfold metadata_init_file. cbn [files_of currentId title2id_of].
    assert (read_file {[ T "note.md" := spaced_note ]} (T "note.md")
            = Ok spaced_note) as -> by (vm_compute; reflexivity).
    rewrite bind_Ok, spaced_note_parsed, bind_Ok.
    vm_compute. reflexivity.
  - rewrite spaced_note_written_parsed, bind_Ok. vm_compute. reflexivity.
Qed.
End IdentityFacts.

Lemma metadata_init_orphans_title_witness :
  metadata_init spaced_load false (fun _ => [])
    {[ T "note.md" := spaced_note ]} 20240101000000 [T "note.md"]
  = Ok (RunState {[ T "note.md" := spaced_note_written ]} 20240101000001
          [(VStr false (T "X"), VInt 20240101000001)])
  /\ (parsed ← parse_yaml_front_matter spaced_load spaced_note_written;
      front_matter_get (fst (parsed : value * text)) (T "title"))
     = Ok VNone.
Proof.
  apply (metadata_init_orphans_title spaced_load (fun _ => []));
    vm_compute; reflexivity.
Defined.

(** ** Header codec *)

(** C3, as stated, fails: the pattern takes the empty line after the
    closing hyphens as whitespace, so the body comes back without it,
    whatever the loader and the dumper do. *)
Lemma blank_line_not_restored :
  ~ exists (safe_load : text -> result value) (safe_dump : value -> text)
      (data : value) (body : text),
      parse_yaml_front_matter safe_load blank_line_note = Ok (data, body)
      /\ dump_front_matter safe_dump data body = blank_line_note.
Proof.
  intros (safe_load & safe_dump & data & body & Hparse & Hdump).
  unfold parse_yaml_front_matter in Hparse.
  assert (front_matter_match blank_line_note = Some (T "a: b", T "Body"))
    as E by (vm_compute; reflexivity).
  rewrite E in Hparse.
  destruct (safe_load (T "a: b")) as [d|e]; [|done].
  rewrite bind_Ok in Hparse. injection Hparse as _ <-.
  unfold dump_front_matter, blank_line_note, document in Hdump.
  apply app_inv_head, app_inv_head in Hdump.
  change (lstrip (T "Body")) with (T "Body") in Hdump.
  change (T "a: b" ++ [nl] ++ T "---" ++ [nl] ++ nl :: T "Body")
    with ((T "a: b" ++ [nl]) ++ T "---" ++ [nl] ++ nl :: T "Body") in Hdump.
  apply app_inj_2 in Hdump as [_ Htail]; [|done].
  discriminate Htail.
Qed.

Lemma front_lazy_unfold (s : text) :
  front_lazy s
  = match prefix_of (nl :: T "---") s with
    | Some r => Some ([], r)
    | None =>
        match s with
        | [] => None
        | c :: s' =>
            match front_lazy s' with
            | Some (g, r) => Some (c :: g, r)
            | None => None
            end
        end
    end.
Proof. by destruct s. Qed.

Lemma front_lazy_exact (front_matter rest : text) :
  is_substring (nl :: T "---") front_matter = false ->
  front_lazy (front_matter ++ nl :: T "---" ++ rest)
  = Some (front_matter, rest).
Proof.
  induction front_matter as [|c fm IH]; intros Hsub.
  - rewrite front_lazy_unfold.
    change ([] ++ nl :: T "---" ++ rest) with ((nl :: T "---") ++ rest).
    by rewrite prefix_of_app.
  - cbn [is_substring] in Hsub.
    destruct (prefix_of (nl :: T "---") (c :: fm)) as [r|] eqn:Ep; [done|].
    rewrite front_lazy_unfold.
    change ((c :: fm) ++ nl :: T "---" ++ rest)
      with (c :: (fm ++ nl :: T "---" ++ rest)).
    assert (prefix_of (nl :: T "---") (c :: fm ++ nl :: T "---" ++ rest)
            = None) as ->.
    { destruct (prefix_of (nl :: T "---") (c :: fm ++ nl :: T "---" ++ rest))
        as [r|] eqn:E; [|done].
      exfalso. cbn in E, Ep.
      destruct (chr_eqb nl c); [|done].
      destruct fm as [|x [|y [|z fm]]]; cbn in E, Ep.
      - done.
      - destruct (chr_eqb "-"%char x); done.
      - destruct (chr_eqb "-"%char x); [|done].
        destruct (chr_eqb "-"%char y); done.
      - destruct (chr_eqb "-"%char x); [|done].
        destruct (chr_eqb "-"%char y); [|done].
        destruct (chr_eqb "-"%char z); done. }
    by rewrite (IH Hsub).
Qed.

Lemma front_matter_match_document (front_matter body : text) :
  plain_front_matter front_matter = true ->
  front_matter_match (document front_matter body)
  = Some (front_matter, lstrip body).
Proof.
  intros Hfm. unfold front_matter_match, document.
  rewrite prefix_of_app. cbn [mbind option_bind].
  destruct front_matter as [|c fm]; [done|].
  cbn [plain_front_matter] in Hfm. apply andb_prop in Hfm as [Hc Hsub].
  apply negb_true_iff in Hc. apply negb_true_iff in Hsub.
  change ([nl] ++ (c :: fm) ++ [nl] ++ T "---" ++ [nl] ++ body)
    with (nl :: c :: (fm ++ [nl] ++ T "---" ++ [nl] ++ body)).
  cbn [front_open].
  replace (isspace nl) with true by reflexivity. rewrite Hc.
  replace (is_nl nl) with true by reflexivity.
  change (c :: (fm ++ [nl] ++ T "---" ++ [nl] ++ body))
    with ((c :: fm) ++ nl :: T "---" ++ (nl :: body)).
  rewrite (front_lazy_exact (c :: fm) (nl :: body) Hsub).
  cbn [fst snd lstrip]. by replace (isspace nl) with true by reflexivity.
Qed.

Section Codec.
Variable safe_load : text -> result value.
Variable safe_dump : value -> text.

(** C3, amended.  A document whose front matter is plain and whose body
    does not start with whitespace is written back as it was read, when the
    dumper, once its output is stripped on the right, gives back the text
    of the front matter that the loader has read. *)
Theorem front_matter_round_trip (front_matter body : text) (data : value) :
  plain_front_matter front_matter = true ->
  lstrip body = body ->
  safe_load front_matter = Ok data ->
  rstrip (safe_dump (match data with VNone => VDict [] | _ => data end))
  = front_matter ->
  (parsed ← parse_yaml_front_matter safe_load (document front_matter body);
   Ok (dump_front_matter safe_dump (fst (parsed : value * text))
         (snd parsed)))
  = Ok (document front_matter body).
Proof.
  intros Hfm Hbody Hload Hdump. unfold parse_yaml_front_matter.
  rewrite (front_matter_match_document front_matter body Hfm), Hload, Hbody.
  rewrite !bind_Ok. cbn [fst snd]. unfold dump_front_matter.
  by rewrite Hdump, Hbody.
Qed.
End Codec.

Lemma front_matter_round_trip_witness :
  (parsed ← parse_yaml_front_matter ab_load (document (T "a: b") (T "Body"));
   Ok (dump_front_matter ab_dump (fst (parsed : value * text)) (snd parsed)))
  = Ok (document (T "a: b") (T "Body")).
Proof.
  apply (front_matter_round_trip ab_load ab_dump (T "a: b") (T "Body")
           (VDict [(T "a", VStr false (T "b"))]));
    vm_compute; reflexivity.
Defined.

(** ** Image embeds *)

Lemma bracket_free_open_free (s : text) :
  bracket_free s = true -> open_free s = true.
Proof.
  unfold bracket_free, open_free. induction s as [|c s IH]; simpl; [done|].
  intros [Hc Hs]%andb_prop. rewrite (IH Hs), andb_true_r.
  apply negb_true_iff, orb_false_iff in Hc as [Hc _]. by rewrite Hc.
Qed.

Lemma open_free_app (a b : text) :
  open_free (a ++ b) = open_free a && open_free b.
Proof. apply forallb_app. Qed.

Lemma bracket_free_app (a b : text) :
  bracket_free (a ++ b) = bracket_free a && bracket_free b.
Proof. apply forallb_app. Qed.

Lemma wiki_link_matcher_other (prev : option ascii) (c : ascii) (s : text) :
  chr_eqb "["%char c = false -> wiki_link_matcher prev (c :: s) = None.
Proof.
  intros Hc. unfold wiki_link_matcher.
  cbn [T String.list_ascii_of_string prefix_of]. rewrite Hc.
  destruct prev as [p|]; [|done]. by destruct (chr_eqb p "!"%char).
Qed.

(** The substitution of references leaves a text without opening bracket
    as it is. *)
Lemma re_sub_wiki_open_free (repl : text -> result text) (s : text)
    (fuel : nat) (prev : option ascii) :
  open_free s = true -> length s <= fuel ->
  re_sub wiki_link_matcher repl fuel prev s = Ok s.
Proof.
  revert fuel prev. induction s as [|c s IH]; intros [|fuel] prev Hs Hf;
    simpl in Hf; try done; try lia.
  cbn [open_free forallb] in Hs. apply andb_prop in Hs as [Hc Hs].
  apply negb_true_iff in Hc.
  cbn [re_sub]. rewrite (wiki_link_matcher_other prev c s Hc).
  rewrite (IH fuel (Some c) Hs); [done | lia].
Qed.

(** It also leaves an image embed as it is: the brackets come after an
    exclamation mark. *)
Lemma re_sub_wiki_embed (repl : text -> result text) (pre rest : text)
    (fuel : nat) (prev : option ascii) :
  open_free pre = true -> open_free rest = true -> rest <> [] ->
  length (pre ++ T "![[" ++ rest) <= fuel ->
  re_sub wiki_link_matcher repl fuel prev (pre ++ T "![[" ++ rest)
  = Ok (pre ++ T "![[" ++ rest).
Proof.
  intros Hpre Hrest Hne. revert fuel prev.
  induction pre as [|c pre IH]; intros fuel prev Hf.
  - destruct rest as [|b rest]; [done|].
    pose proof Hrest as Hrest'.
    cbn [open_free forallb] in Hrest. apply andb_prop in Hrest as [Hb _].
    apply negb_true_iff in Hb.
    change ([] ++ T "![[" ++ b :: rest)
      with ("!"%char :: "["%char :: "["%char :: b :: rest) in *.
    destruct fuel as [|[|[|fuel]]]; simpl in Hf; try lia.
    cbn [re_sub].
    rewrite (wiki_link_matcher_other prev "!"%char); [|done].
    assert (wiki_link_matcher (Some "!"%char)
              ("["%char :: "["%char :: b :: rest) = None) as -> by done.
    assert (wiki_link_matcher (Some "["%char) ("["%char :: b :: rest) = None)
      as ->.
    { unfold wiki_link_matcher.
      cbn [T String.list_ascii_of_string prefix_of].
      rewrite chr_eqb_refl, Hb. done. }
    rewrite (re_sub_wiki_open_free repl (b :: rest) fuel _ Hrest');
      [done | simpl; lia].
  - cbn [open_free forallb] in Hpre. apply andb_prop in Hpre as [Hc Hpre].
    apply negb_true_iff in Hc.
    destruct fuel as [|fuel]; [simpl in Hf; lia|].
    change ((c :: pre) ++ T "![[" ++ rest) with (c :: (pre ++ T "![[" ++ rest)).
    cbn [re_sub]. rewrite (wiki_link_matcher_other prev c _ Hc).
    rewrite (IH Hpre fuel (Some c)); [done | simpl in Hf |- *; lia].
Qed.

(** Matching a literal that holds a closing bracket against a text: the
    bracket is met at the first closing bracket of the text. *)
Lemma prefix_of_first_bracket (v u p s r : text) :
  bracket_free v = true -> bracket_free u = true ->
  prefix_of (v ++ "]"%char :: p) (u ++ "]"%char :: s) = Some r -> u = v.
Proof.
  revert u. induction v as [|y v IH]; intros [|x u] Hv Hu H.
  - done.
  - cbn [bracket_free forallb] in Hu. apply andb_prop in Hu as [Hx _].
    apply negb_true_iff, orb_false_iff in Hx as [_ Hx].
    cbn [app prefix_of] in H. by rewrite Hx in H.
  - cbn [bracket_free forallb] in Hv. apply andb_prop in Hv as [Hy _].
    apply negb_true_iff, orb_false_iff in Hy as [_ Hy].
    cbn [app prefix_of] in H. rewrite chr_eqb_sym in Hy. by rewrite Hy in H.
  - cbn [bracket_free forallb] in Hv, Hu.
    apply andb_prop in Hv as [_ Hv]. apply andb_prop in Hu as [_ Hu].
    cbn [app prefix_of] in H.
    destruct (chr_eqb y x) eqn:E; [|done]. apply chr_eqb_eq in E. subst.
    f_equal. by apply IH.
Qed.

Lemma prefix_of_no_bracket (v p s : text) :
  bracket_free s = true -> prefix_of (v ++ "]"%char :: p) s = None.
Proof.
  revert s. induction v as [|y v IH]; intros [|x s] Hs; try done.
  - cbn [bracket_free forallb] in Hs. apply andb_prop in Hs as [Hx _].
    apply negb_true_iff, orb_false_iff in Hx as [_ Hx].
    cbn [app prefix_of]. by rewrite Hx.
  - cbn [bracket_free forallb] in Hs. apply andb_prop in Hs as [_ Hs].
    cbn [app prefix_of]. destruct (chr_eqb y x); [by apply IH | done].
Qed.

Lemma jpg_close_closes : closes_with jpg_close [Jpeg; Jpg].
Proof.
  intros s m H. unfold jpg_close in H.
  destruct (prefix_of (T ".jpeg]]") s) as [r|] eqn:E1.
  - injection H as <-. exists Jpeg. split_and!; [|done|done].
    apply elem_of_cons. by left.
  - destruct (prefix_of (T ".jpg]]") s) as [r|] eqn:E2; [|done].
    injection H as <-. exists Jpg. split_and!; [|done|done].
    apply elem_of_cons. right. apply elem_of_cons. by left.
Qed.

Lemma png_close_closes : closes_with png_close [Png].
Proof.
  intros s m H. unfold png_close in H.
  destruct (prefix_of (T ".png]]") s) as [r|] eqn:E1; [|done].
  injection H as <-. exists Png. split_and!; [|done|done].
  apply elem_of_cons. by left.
Qed.

Lemma ext_text_bracket_free (e : image_ext) : bracket_free (ext_text e) = true.
Proof. by destruct e. Qed.

(** An extension after a longer text is not an extension alone. *)
Lemma ext_after_name (n : text) (e e' : image_ext) :
  n ++ ext_text e = ext_text e' -> n = [].
Proof.
  intros H. pose proof (f_equal length H) as L. rewrite length_app in L.
  destruct n as [|x [|y n]]; [done| |].
  - destruct e, e'; simpl in L; try lia; by injection H.
  - destruct e, e'; simpl in L; lia.
Qed.

Section ImageLazy.
Variable close : text -> option (text * text).
Variable exts : list image_ext.
Hypothesis close_ok : closes_with close exts.

(** Inside the name the closing is not met. *)
Lemma close_in_name (n post : text) (e : image_ext) :
  n <> [] -> bracket_free n = true ->
  close (n ++ ext_text e ++ T "]]" ++ post) = None.
Proof.
  intros Hne Hn.
  destruct (close (n ++ ext_text e ++ T "]]" ++ post)) as [m|] eqn:E; [|done].
  exfalso. destruct (close_ok _ _ E) as (e' & _ & Hp & _).
  change (T "]]") with ("]"%char :: T "]") in Hp.
  rewrite (app_assoc n) in Hp.
  apply prefix_of_first_bracket in Hp.
  - by apply ext_after_name in Hp.
  - apply ext_text_bracket_free.
  - by rewrite bracket_free_app, Hn, ext_text_bracket_free.
Qed.

(** Without brackets ahead no closing is met. *)
Lemma close_bracket_free (s : text) : bracket_free s = true -> close s = None.
Proof.
  intros Hs. destruct (close s) as [m|] eqn:E; [|done].
  exfalso. destruct (close_ok _ _ E) as (e' & _ & Hp & _).
  change (T "]]") with ("]"%char :: T "]") in Hp.
  by rewrite (prefix_of_no_bracket _ _ _ Hs) in Hp.
Qed.

Lemma image_name_lazy_bracket_free (s : text) :
  bracket_free s = true -> image_name_lazy close s = None.
Proof.
  induction s as [|c s IH]; intros Hs; [done|].
  cbn [bracket_free forallb] in Hs. apply andb_prop in Hs as [_ Hs].
  cbn [image_name_lazy]. destruct (is_nl c); [done|].
  by rewrite (close_bracket_free s Hs), (IH Hs).
Qed.
End ImageLazy.

Section ImageLazyExact.
Variable close : text -> option (text * text).
Variable exts : list image_ext.
Hypothesis close_ok : closes_with close exts.

(** The lazy name stops where the extension and the closing brackets
    follow it. *)
Lemma image_name_lazy_exact (name post : text) (e : image_ext) :
  name <> [] -> bracket_free name = true ->
  forallb (fun c => negb (is_nl c)) name = true ->
  close (ext_text e ++ T "]]" ++ post) = Some (ext_text e, post) ->
  image_name_lazy close (name ++ ext_text e ++ T "]]" ++ post)
  = Some (name ++ ext_text e, post).
Proof.
  intros Hne Hn Hnl Hclose. induction name as [|c n IH]; [done|].
  cbn [bracket_free forallb] in Hn, Hnl.
  apply andb_prop in Hn as [_ Hn]. apply andb_prop in Hnl as [Hc Hnl].
  apply negb_true_iff in Hc.
  change ((c :: n) ++ ext_text e ++ T "]]" ++ post)
    with (c :: (n ++ ext_text e ++ T "]]" ++ post)).
  cbn [image_name_lazy]. rewrite Hc.
  destruct n as [|c' n].
  - change ([] ++ ext_text e ++ T "]]" ++ post)
      with (ext_text e ++ T "]]" ++ post).
    by rewrite Hclose.
  - rewrite (close_in_name close exts close_ok (c' :: n) post e); [|done|done].
    by rewrite IH.
Qed.

Lemma image_name_lazy_cons_None (c : ascii) (s : text) :
  close s = None -> image_name_lazy close s = None ->
  image_name_lazy close (c :: s) = None.
Proof.
  intros H1 H2. cbn [image_name_lazy]. rewrite H1, H2.
  by destruct (is_nl c).
Qed.
End ImageLazyExact.

(** The first alternative fails on an image in [png] that is alone on its
    line as far as brackets go. *)
Lemma jpg_alternative_fails (name post : text) :
  bracket_free name = true -> bracket_free post = true ->
  image_name_lazy jpg_close (name ++ ext_text Png ++ T "]]" ++ post) = None.
Proof.
  intros Hn Hpost. induction name as [|c n IH].
  - change ([] ++ ext_text Png ++ T "]]" ++ post)
      with ("."%char :: "p"%char :: "n"%char :: "g"%char :: "]"%char
            :: "]"%char :: post).
    do 5 (apply image_name_lazy_cons_None; [vm_compute; reflexivity|]).
    apply image_name_lazy_cons_None.
    + by apply (close_bracket_free jpg_close _ jpg_close_closes).
    + by apply (image_name_lazy_bracket_free jpg_close _ jpg_close_closes).
  - cbn [bracket_free forallb] in Hn. apply andb_prop in Hn as [_ Hn].
    change (bracket_free n = true) in Hn.
    change ((c :: n) ++ ext_text Png ++ T "]]" ++ post)
      with (c :: (n ++ ext_text Png ++ T "]]" ++ post)).
    apply image_name_lazy_cons_None; [|by apply IH].
    destruct (jpg_close (n ++ ext_text Png ++ T "]]" ++ post)) as [m|] eqn:E;
      [|done].
    exfalso. destruct (jpg_close_closes _ _ E) as (e' & He' & Hp & _).
    change (T "]]") with ("]"%char :: T "]") in Hp.
    rewrite (app_assoc n) in Hp.
    apply prefix_of_first_bracket in Hp.
    + pose proof (ext_after_name _ _ _ Hp) as ->. simpl in Hp.
      apply elem_of_cons in He' as [->|He']; [done|].
      apply elem_of_cons in He' as [->|He']; [done|].
      by apply elem_of_nil in He'.
    + apply ext_text_bracket_free.
    + by rewrite bracket_free_app, Hn, ext_text_bracket_free.
Qed.

(** The pattern at an embed of an image. *)
Lemma image_matcher_embed (prev : option ascii) (name post : text)
    (e : image_ext) :
  name <> [] -> bracket_free name = true ->
  forallb (fun c => negb (is_nl c)) name = true ->
  bracket_free post = true ->
  image_matcher prev (T "![[" ++ name ++ ext_text e ++ T "]]" ++ post)
  = Some (name ++ ext_text e, post).
Proof.
  intros Hne Hn Hnl Hpost. unfold image_matcher. rewrite prefix_of_app.
  destruct e.
  - rewrite (image_name_lazy_exact jpg_close _ jpg_close_closes); done.
  - rewrite (image_name_lazy_exact jpg_close _ jpg_close_closes); done.
  - rewrite (jpg_alternative_fails name post Hn Hpost).
    rewrite (image_name_lazy_exact png_close _ png_close_closes); done.
Qed.

Lemma image_matcher_embed_matcher : embed_matcher image_matcher.
Proof. intros prev s H. unfold image_matcher. by rewrite H. Qed.

Lemma prefix_of_app_None (a b s : text) :
  prefix_of a s = None -> prefix_of (a ++ b) s = None.
Proof.
  revert s. induction a as [|x a IH]; intros [|y s] H; try done.
  cbn [app prefix_of] in *. destruct (chr_eqb x y); [by apply IH | done].
Qed.

Lemma literal_matcher_embed_matcher (body : text) :
  embed_matcher (literal_matcher (T "![[" ++ body)).
Proof.
  intros prev s H. unfold literal_matcher.
  change (T "![[" ++ body) with ("!"%char :: (T "[[" ++ body)).
  cbv iota beta.
  change ("!"%char :: (T "[[" ++ body)) with (T "![[" ++ body).
  by rewrite (prefix_of_app_None _ body s H).
Qed.

Section EmbedScan.
Context {G : Type}.
Variable matcher : option ascii -> text -> option (G * text).
Hypothesis matcher_embed : embed_matcher matcher.

Lemma embed_matcher_free (prev : option ascii) (s : text) :
  open_free s = true -> matcher prev s = None.
Proof.
  intros Hs. apply matcher_embed.
  destruct s as [|c [|x s]]; cbn [T String.list_ascii_of_string prefix_of].
  - done.
  - by destruct (chr_eqb "!"%char c).
  - cbn [open_free forallb] in Hs.
    apply andb_prop in Hs as [_ [Hx _]%andb_prop].
    apply negb_true_iff in Hx. rewrite Hx. by destruct (chr_eqb "!"%char c).
Qed.

Lemma embed_matcher_before (prev : option ascii) (c : ascii) (pre s : text) :
  open_free (c :: pre) = true ->
  matcher prev (c :: pre ++ "!"%char :: s) = None.
Proof.
  intros Hs. apply matcher_embed.
  cbn [open_free forallb] in Hs. apply andb_prop in Hs as [_ Hs].
  destruct pre as [|x pre]; cbn [T String.list_ascii_of_string prefix_of app].
  - by destruct (chr_eqb "!"%char c).
  - cbn [open_free forallb] in Hs. apply andb_prop in Hs as [Hx _].
    apply negb_true_iff in Hx. rewrite Hx. by destruct (chr_eqb "!"%char c).
Qed.

Lemma re_sub_embed_free (repl : G -> result text) (s : text) (fuel : nat)
    (prev : option ascii) :
  open_free s = true -> length s <= fuel ->
  re_sub matcher repl fuel prev s = Ok s.
Proof.
  revert fuel prev. induction s as [|c s IH]; intros [|fuel] prev Hs Hf;
    simpl in Hf; try done; try lia.
  cbn [re_sub]. rewrite (embed_matcher_free prev (c :: s) Hs).
  cbn [open_free forallb] in Hs. apply andb_prop in Hs as [_ Hs].
  rewrite (IH fuel (Some c) Hs); [done | lia].
Qed.

Lemma re_finditer_embed_free (s : text) (fuel : nat) (prev : option ascii) :
  open_free s = true -> re_finditer matcher fuel prev s = [].
Proof.
  revert fuel prev. induction s as [|c s IH]; intros [|fuel] prev Hs;
    try done.
  cbn [re_finditer]. rewrite (embed_matcher_free prev (c :: s) Hs).
  cbn [open_free forallb] in Hs. apply andb_prop in Hs as [_ Hs].
  by apply IH.
Qed.

Lemma re_sub_embed_before (repl : G -> result text) (pre s : text)
    (fuel : nat) (prev : option ascii) :
  open_free pre = true ->
  length (pre ++ "!"%char :: s) <= fuel ->
  exists prev',
    re_sub matcher repl fuel prev (pre ++ "!"%char :: s)
    = rest ← re_sub matcher repl (fuel - length pre) prev' ("!"%char :: s);
      Ok (pre ++ rest).
Proof.
  revert fuel prev. induction pre as [|c pre IH]; intros fuel prev Hs Hf.
  - exists prev. rewrite Nat.sub_0_r. simpl.
    by destruct (re_sub matcher repl fuel prev ("!"%char :: s)).
  - destruct fuel as [|fuel]; [simpl in Hf; lia|].
    change ((c :: pre) ++ "!"%char :: s) with (c :: (pre ++ "!"%char :: s)).
    cbn [re_sub]. rewrite (embed_matcher_before prev c pre s Hs).
    cbn [open_free forallb] in Hs. apply andb_prop in Hs as [_ Hs].
    destruct (IH fuel (Some c) Hs) as [prev' ->]; [simpl in Hf; lia|].
    exists prev'. simpl.
    by destruct (re_sub matcher repl (fuel - length pre) prev' ("!"%char :: s)).
Qed.

Lemma re_finditer_embed_before (pre s : text) (fuel : nat)
    (prev : option ascii) :
  open_free pre = true ->
  length (pre ++ "!"%char :: s) <= fuel ->
  exists prev',
    re_finditer matcher fuel prev (pre ++ "!"%char :: s)
    = re_finditer matcher (fuel - length pre) prev' ("!"%char :: s).
Proof.
  revert fuel prev. induction pre as [|c pre IH]; intros fuel prev Hs Hf.
  - exists prev. by rewrite Nat.sub_0_r.
  - destruct fuel as [|fuel]; [simpl in Hf; lia|].
    change ((c :: pre) ++ "!"%char :: s) with (c :: (pre ++ "!"%char :: s)).
    cbn [re_finditer]. rewrite (embed_matcher_before prev c pre s Hs).
    cbn [open_free forallb] in Hs. apply andb_prop in Hs as [_ Hs].
    destruct (IH fuel (Some c) Hs) as [prev' ->]; [simpl in Hf; lia|].
    by exists prev'.
Qed.
End EmbedScan.

Lemma re_finditer_image_embed (pre name post : text) (e : image_ext)
    (fuel : nat) (prev : option ascii) :
  open_free pre = true ->
  name <> [] -> bracket_free name = true ->
  forallb (fun c => negb (is_nl c)) name = true ->
  bracket_free post = true ->
  length (pre ++ T "![[" ++ name ++ ext_text e ++ T "]]" ++ post) <= fuel ->
  re_finditer image_matcher fuel prev
    (pre ++ T "![[" ++ name ++ ext_text e ++ T "]]" ++ post)
  = [name ++ ext_text e].
Proof.
  intros Hpre Hne Hn Hnl Hpost Hf.
  set (s := T "[[" ++ name ++ ext_text e ++ T "]]" ++ post) in *.
  change (T "![[" ++ name ++ ext_text e ++ T "]]" ++ post)
    with ("!"%char :: s) in *.
  destruct (re_finditer_embed_before image_matcher
              image_matcher_embed_matcher pre s fuel prev Hpre Hf)
    as [prev' ->].
  rewrite length_app in Hf. simpl in Hf.
  destruct (fuel - length pre) as [|fuel'] eqn:Efuel; [lia|].
  cbn [re_finditer].
  change ("!"%char :: s)
    with (T "![[" ++ name ++ ext_text e ++ T "]]" ++ post).
  rewrite (image_matcher_embed prev' name post e Hne Hn Hnl Hpost).
  f_equal.
  apply (re_finditer_embed_free image_matcher image_matcher_embed_matcher).
  by apply bracket_free_open_free.
Qed.

Lemma str_replace_embed (pre body post new : text) :
  open_free pre = true -> open_free post = true ->
  str_replace (pre ++ (T "![[" ++ body) ++ post) (T "![[" ++ body) new
  = pre ++ new ++ post.
Proof.
  intros Hpre Hpost. unfold str_replace.
  set (old := T "![[" ++ body).
  set (s := T "[[" ++ body ++ post).
  assert (old ++ post = "!"%char :: s) as Hs
    by (unfold old, s; by rewrite <- !app_assoc).
  rewrite Hs.
  destruct (re_sub_embed_before (literal_matcher old)
              (literal_matcher_embed_matcher body) (fun _ => Ok new)
              pre s (length (pre ++ "!"%char :: s)) None Hpre)
    as [prev' ->]; [done|].
  rewrite length_app, Nat.add_comm, Nat.add_sub.
  change (length ("!"%char :: s)) with (S (length s)). cbn [re_sub].
  assert (literal_matcher old prev' ("!"%char :: s) = Some (tt, post)) as ->.
  { rewrite <- Hs. unfold literal_matcher, old.
    change (T "![[" ++ body) with ("!"%char :: (T "[[" ++ body)).
    cbv iota beta.
    change ("!"%char :: (T "[[" ++ body)) with (T "![[" ++ body).
    by rewrite prefix_of_app. }
  rewrite bind_Ok.
  rewrite (re_sub_embed_free (literal_matcher old)
             (literal_matcher_embed_matcher body) (fun _ => Ok new) post);
    [done | done |].
  unfold s. rewrite !length_app. lia.
Qed.

(** An embed of an image in a text without other brackets: both passes
    of [replace_wiki_links]. *)
Lemma replace_wiki_links_embed (title2id : gmap text text) (zettlr : bool)
    (pre name post : text) (e : image_ext) :
  open_free pre = true ->
  name <> [] ->
  bracket_free name = true ->
  forallb (fun c => negb (is_nl c)) name = true ->
  bracket_free post = true ->
  replace_wiki_links title2id zettlr
    (pre ++ T "![[" ++ name ++ ext_text e ++ T "]]" ++ post)
  = Ok (pre ++ T "![](" ++ name ++ ext_text e ++ T ")" ++ post).
Proof.
  intros Hpre Hne Hn Hnl Hpost. unfold replace_wiki_links, sub_wiki_links.
  rewrite re_sub_wiki_embed; [|done| |by destruct name|done].
  2:{ rewrite !open_free_app, (bracket_free_open_free name Hn),
        (bracket_free_open_free post Hpost). by destruct e. }
  rewrite bind_Ok. f_equal. unfold replace_images.
  rewrite (re_finditer_image_embed pre name post e _ None); try done.
  cbn [fold_left].
  transitivity
    (str_replace (pre ++ (T "![[" ++ (name ++ ext_text e) ++ T "]]") ++ post)
       (T "![[" ++ (name ++ ext_text e) ++ T "]]")
       (T "![](" ++ (name ++ ext_text e) ++ T ")")).
  { by rewrite <- !app_assoc. }
  rewrite str_replace_embed; [|done|by apply bracket_free_open_free].
  by rewrite <- !app_assoc.
Qed.



(** ** Rewriting a second time *)

Lemma label_chars_link_chars (s : text) :
  label_chars s = true -> link_chars s = true.
Proof.
  unfold label_chars, link_chars. induction s as [|c s IH]; simpl; [done|].
  intros [Hc Hs]%andb_prop. rewrite (IH Hs), andb_true_r.
  apply negb_true_iff, orb_false_iff in Hc as [Hc _]. by rewrite Hc.
Qed.

Lemma label_chars_open_free (s : text) :
  label_chars s = true -> open_free s = true.
Proof.
  unfold label_chars, open_free. induction s as [|c s IH]; simpl; [done|].
  intros [Hc Hs]%andb_prop. rewrite (IH Hs), andb_true_r.
  apply negb_true_iff, orb_false_iff in Hc as [_ Hc]. by rewrite Hc.
Qed.

Lemma forallb_lstrip (P : ascii -> bool) (s : text) :
  forallb P s = true -> forallb P (lstrip s) = true.
Proof.
  induction s as [|c s IH]; simpl; [done|].
  intros [Hc Hs]%andb_prop. destruct (isspace c); [by apply IH|].
  simpl. by rewrite Hc, Hs.
Qed.

Lemma forallb_rev (P : ascii -> bool) (s : text) :
  forallb P (rev s) = forallb P s.
Proof.
  induction s as [|c s IH]; simpl; [done|].
  rewrite forallb_app, IH. simpl. rewrite andb_true_r. apply andb_comm.
Qed.

Lemma forallb_strip (P : ascii -> bool) (s : text) :
  forallb P s = true -> forallb P (strip s) = true.
Proof.
  intros H. unfold strip, rstrip.
  rewrite forallb_rev. apply forallb_lstrip. rewrite forallb_rev.
  by apply forallb_lstrip.
Qed.

Lemma label_chars_strip (s : text) :
  label_chars s = true -> label_chars (strip s) = true.
Proof. apply forallb_strip. Qed.

(** *** Texts without a pair of opening brackets *)

Lemma quiet_cons (c : ascii) (s : text) :
  quiet (c :: s) = true -> quiet s = true.
Proof. simpl. by intros [_ ?]%andb_prop. Qed.

Lemma wiki_link_matcher_quiet (prev : option ascii) (s : text) :
  quiet s = true -> wiki_link_matcher prev s = None.
Proof.
  intros Hq.
  assert (prefix_of (T "[[") s = None) as Hp.
  { destruct s as [|c [|x s]];
      cbn [T String.list_ascii_of_string prefix_of]; [done| |].
    - by destruct (chr_eqb "["%char c).
    - simpl in Hq. apply andb_prop in Hq as [Hc _].
      apply negb_true_iff in Hc.
      rewrite (chr_eqb_sym "["%char c), (chr_eqb_sym "["%char x).
      destruct (chr_eqb c "["%char); [|done]. simpl in Hc. by rewrite Hc. }
  unfold wiki_link_matcher. rewrite Hp.
  destruct prev as [p|]; [|done]. by destruct (chr_eqb p "!"%char).
Qed.

Lemma re_sub_wiki_quiet_all (repl : text -> result text) (s : text)
    (fuel : nat) (prev : option ascii) :
  quiet s = true -> length s <= fuel ->
  re_sub wiki_link_matcher repl fuel prev s = Ok s.
Proof.
  revert fuel prev. induction s as [|c s IH]; intros [|fuel] prev Hs Hf;
    simpl in Hf; try done; try lia.
  cbn [re_sub]. rewrite (wiki_link_matcher_quiet prev (c :: s) Hs).
  rewrite (IH fuel (Some c) (quiet_cons c s Hs)); [done | lia].
Qed.

Lemma open_free_quiet (s : text) : open_free s = true -> quiet s = true.
Proof.
  induction s as [|c s IH]; [done|].
  cbn [open_free forallb]. intros [Hc Hs]%andb_prop.
  apply negb_true_iff in Hc. simpl. rewrite (IH Hs), andb_true_r.
  by rewrite chr_eqb_sym, Hc.
Qed.

(** A pair of opening brackets in a concatenation is in the first text
    with the first character of the second, or in the second text. *)
Lemma quiet_app (a : text) (c : ascii) (b : text) :
  quiet (a ++ c :: b) = quiet (a ++ [c]) && quiet (c :: b).
Proof.
  induction a as [|x a IH].
  - simpl. by rewrite andb_false_r.
  - change ((x :: a) ++ c :: b) with (x :: (a ++ c :: b)).
    change ((x :: a) ++ [c]) with (x :: (a ++ [c])).
    cbn [quiet]. rewrite IH, andb_assoc. f_equal. f_equal.
    by destruct a.
Qed.

(** *** Texts without the start of an embed *)

Lemma has_embed_cons (c : ascii) (s : text) :
  has_embed (c :: s)
  = bool_decide (is_Some (prefix_of (T "![[") (c :: s))) || has_embed s.
Proof.
  unfold has_embed. cbn [is_substring].
  by destruct (prefix_of (T "![[") (c :: s)).
Qed.

Lemma has_embed_other (c : ascii) (s : text) :
  chr_eqb "!"%char c = false -> has_embed (c :: s) = has_embed s.
Proof.
  intros Hc. rewrite has_embed_cons.
  cbn [T String.list_ascii_of_string prefix_of]. by rewrite Hc.
Qed.

Lemma has_embed_open_free (u s : text) :
  open_free u = true ->
  match s with c :: _ => chr_eqb "["%char c = false | [] => True end ->
  has_embed (u ++ s) = has_embed s.
Proof.
  intros Hu Hs. induction u as [|c u IH]; [done|].
  cbn [open_free forallb] in Hu. apply andb_prop in Hu as [_ Hu].
  change ((c :: u) ++ s) with (c :: (u ++ s)).
  rewrite has_embed_cons, (IH Hu).
  assert (prefix_of (T "![[") (c :: u ++ s) = None) as ->; [|done].
  cbn [T String.list_ascii_of_string prefix_of].
  destruct (chr_eqb "!"%char c); [|done].
  destruct u as [|x u].
  - destruct s as [|y s]; [done|]. simpl. by rewrite Hs.
  - cbn [open_free forallb] in Hu. apply andb_prop in Hu as [Hx _].
    apply negb_true_iff in Hx. simpl. by rewrite Hx.
Qed.

Lemma has_embed_quiet (s : text) : quiet s = true -> has_embed s = false.
Proof.
  induction s as [|c s IH]; intros Hq; [done|].
  rewrite has_embed_cons, (IH (quiet_cons c s Hq)), orb_false_r.
  assert (prefix_of (T "![[") (c :: s) = None) as ->; [|done].
  cbn [T String.list_ascii_of_string prefix_of].
  destruct (chr_eqb "!"%char c); [|done].
  destruct s as [|x [|y s]]; [done| |].
  - by destruct (chr_eqb "["%char x).
  - apply quiet_cons in Hq. simpl in Hq. apply andb_prop in Hq as [Hx _].
    apply negb_true_iff in Hx.
    rewrite (chr_eqb_sym "["%char x), (chr_eqb_sym "["%char y).
    destruct (chr_eqb x "["%char); [|done]. simpl in Hx. by rewrite Hx.
Qed.

(** Before a reference that the scan reaches no embed starts. *)
Lemma has_embed_before (pre s : text) :
  before_reference pre = true ->
  has_embed (pre ++ "["%char :: s) = has_embed ("["%char :: s).
Proof.
  unfold before_reference. intros [Hq Hbang]%andb_prop.
  apply negb_true_iff, bool_decide_eq_false in Hbang.
  induction pre as [|c pre IH]; [done|].
  change ((c :: pre) ++ "["%char :: s) with (c :: (pre ++ "["%char :: s)).
  rewrite has_embed_cons.
  assert (prefix_of (T "![[") (c :: pre ++ "["%char :: s) = None) as ->.
  { cbn [T String.list_ascii_of_string prefix_of].
    destruct (chr_eqb "!"%char c) eqn:Ec; [|done].
    apply chr_eqb_eq in Ec. subst c.
    destruct pre as [|x [|y pre]].
    - done.
    - simpl in Hq. apply andb_prop in Hq as [Hx _].
      apply negb_true_iff in Hx. rewrite chr_eqb_refl, andb_true_r in Hx.
      simpl. by rewrite (chr_eqb_sym "["%char x), Hx.
    - simpl in Hq. apply andb_prop in Hq as [Hx _].
      apply negb_true_iff in Hx. simpl.
      rewrite (chr_eqb_sym "["%char x), (chr_eqb_sym "["%char y).
      destruct (chr_eqb x "["%char); [|done]. simpl in Hx. by rewrite Hx. }
  simpl. apply IH.
  - by apply (quiet_cons c).
  - destruct pre as [|x pre]; [done|]. by rewrite last_cons_cons in Hbang.
Qed.

(** *** The second scan *)

Lemma replace_wiki_link_starts (title2id : gmap text text) (zettlr : bool)
    (link_text out : text) :
  replace_wiki_link title2id zettlr link_text = Ok out ->
  exists out', out = "["%char :: out'.
Proof.
  unfold replace_wiki_link. intros H.
  destruct (contains_chr "|"%char link_text).
  - destruct (split_on "|"%char link_text) as [|t [|a [|? ?]]]; try done.
    destruct (title2id !! t); [destruct zettlr|];
      injection H as <-; by eexists.
  - destruct (title2id !! link_text); [destruct zettlr|];
      injection H as <-; by eexists.
Qed.

(** What follows a reference still follows it once it is rewritten. *)
Lemma after_reference_rewritten (title2id : gmap text text) (zettlr : bool)
    (s out : text) (fuel : nat) (prev : option ascii) :
  re_sub wiki_link_matcher (replace_wiki_link title2id zettlr) fuel prev s
  = Ok out ->
  after_reference s = true -> after_reference out = true.
Proof.
  destruct fuel as [|fuel], s as [|c s]; try done.
  - intros [= <-]. done.
  - intros [= <-]. done.
  - cbn [re_sub]. intros H Hc.
    destruct (wiki_link_matcher prev (c :: s)) as [[g r]|].
    + destruct (replace_wiki_link title2id zettlr g) as [o|] eqn:Eo; [|done].
      rewrite bind_Ok in H.
      destruct (re_sub wiki_link_matcher (replace_wiki_link title2id zettlr)
                  fuel (last (consumed (c :: s) r)) r) as [rest|]; [|done].
      rewrite bind_Ok in H. injection H as <-.
      by destruct (replace_wiki_link_starts _ _ _ _ Eo) as [o' ->].
    + destruct (re_sub wiki_link_matcher (replace_wiki_link title2id zettlr)
                  fuel (Some c) s) as [rest|]; [|done].
      rewrite bind_Ok in H. by injection H as <-.
Qed.

(** A character that opens nothing is copied. *)
Lemma sub_wiki_links_cons (title2id : gmap text text) (zettlr : bool)
    (c : ascii) (s out : text) :
  chr_eqb "["%char c = false -> chr_eqb c "!"%char = false ->
  sub_wiki_links title2id zettlr s = Ok out ->
  sub_wiki_links title2id zettlr (c :: s) = Ok (c :: out).
Proof.
  intros Hc Hbang Hs. unfold sub_wiki_links in *.
  change (length (c :: s)) with (S (length s)). cbn [re_sub].
  rewrite (wiki_link_matcher_other None c s Hc).
  rewrite (re_sub_wiki_prev _ _ (Some c) None), Hs; [done| |done].
  intros [= ->]. by rewrite chr_eqb_refl in Hbang.
Qed.

Lemma reference_label_chars (title : text) (alias : option text) :
  label_chars title = true ->
  from_option label_chars true alias = true ->
  label_chars (reference_label title alias) = true.
Proof.
  intros Ht Ha. destruct alias as [a|]; [|done]. by apply label_chars_strip.
Qed.

Lemma alias_link_chars (alias : option text) :
  from_option label_chars true alias = true ->
  from_option link_chars true alias = true.
Proof. destruct alias as [a|]; [apply label_chars_link_chars | done]. Qed.

Lemma reference_text_open_free (title : text) (alias : option text) :
  label_chars title = true ->
  from_option label_chars true alias = true ->
  open_free (reference_text title alias) = true.
Proof.
  intros Ht Ha. destruct alias as [a|]; [|by apply label_chars_open_free].
  cbn [reference_text from_option] in *.
  by rewrite !open_free_app, (label_chars_open_free _ Ht),
    (label_chars_open_free _ Ha).
Qed.

(** The text before the reference that the convention of Zettlr writes. *)
Lemma before_reference_zettlr (pre label : text) :
  before_reference pre = true -> open_free label = true ->
  before_reference (pre ++ T "[" ++ label ++ T "](") = true.
Proof.
  unfold before_reference. intros [Hq _]%andb_prop Hl.
  apply andb_true_iff. split.
  - rewrite <- !app_assoc.
    change (T "[" ++ label ++ T "](" ++ T "[")
      with ("["%char :: (label ++ T "]([")).
    change (T "[") with [("["%char : ascii)] in Hq.
    rewrite quiet_app, Hq. cbn [andb].
    assert (quiet (label ++ T "]([") = true) as Hq'.
    { clear -Hl. induction label as [|c l IH]; [done|].
      cbn [open_free forallb] in Hl. apply andb_prop in Hl as [Hc Hl].
      apply negb_true_iff in Hc.
      change ((c :: l) ++ T "]([") with (c :: (l ++ T "]([")).
      cbn [quiet]. rewrite (IH Hl), andb_true_r.
      by rewrite (chr_eqb_sym c), Hc. }
    cbn [quiet]. rewrite Hq', andb_true_r. rewrite chr_eqb_refl.
    destruct label as [|c l]; [done|].
    cbn [open_free forallb] in Hl. apply andb_prop in Hl as [Hc _].
    apply negb_true_iff in Hc. simpl. by rewrite (chr_eqb_sym c), Hc.
  - apply negb_true_iff, bool_decide_eq_false.
    change (T "](") with ([("]"%char : ascii)] ++ ["("%char]).
    rewrite !app_assoc, last_snoc. done.
Qed.

Lemma re_finditer_no_embed (s : text) (fuel : nat) (prev : option ascii) :
  has_embed s = false -> re_finditer image_matcher fuel prev s = [].
Proof.
  revert fuel prev. induction s as [|c s IH]; intros [|fuel] prev Hs;
    try done.
  rewrite has_embed_cons in Hs. apply orb_false_iff in Hs as [Hp Hs].
  cbn [re_finditer]. unfold image_matcher at 1.
  destruct (prefix_of (T "![[") (c :: s)) as [r|]; [done|]. by apply IH.
Qed.

Lemma replace_images_no_embed (s : text) :
  has_embed s = false -> replace_images s = s.
Proof.
  intros Hs. unfold replace_images. by rewrite re_finditer_no_embed.
Qed.

Section SecondRun.
Variable title2id : gmap text text.
Variable zettlr : bool.
Hypothesis ids_fresh : fresh_ids title2id.

Lemma rewritten_starts (title : text) (alias : option text) :
  exists out, rewritten title2id zettlr title alias = "["%char :: out.
Proof.
  unfold rewritten, rewritten_reference.
  destruct (title2id !! title); [destruct zettlr|]; by eexists.
Qed.

(** The second run leaves it as it is. *)
Lemma rewritten_again (pre title : text) (alias : option text)
    (post : text) :
  before_reference pre = true ->
  after_reference post = true ->
  label_chars title = true ->
  from_option label_chars true alias = true ->
  reference_text title alias <> [] ->
  sub_wiki_links title2id zettlr post = Ok post ->
  sub_wiki_links title2id zettlr
    (pre ++ rewritten title2id zettlr title alias ++ post)
  = Ok (pre ++ rewritten title2id zettlr title alias ++ post).
Proof.
  intros Hpre Hpost Ht Ha Hne Hrest. unfold rewritten.
  pose proof (reference_label_chars title alias Ht Ha) as Hl.
  destruct (title2id !! title) as [id|] eqn:Hid.
  - destruct (ids_fresh title id Hid) as (Hidne & Hidc & Hfresh).
    unfold rewritten_reference. destruct zettlr eqn:Ez.
    + set (label := reference_label title alias) in *.
      transitivity
        (sub_wiki_links title2id true
           ((pre ++ T "[" ++ label ++ T "](") ++ T "[["
              ++ reference_text id None ++ T "]]" ++ ")"%char :: post)).
      { f_equal. by rewrite <- !app_assoc. }
      rewrite sub_wiki_links_reference.
      * rewrite (replace_wiki_link_reference title2id true id None);
          [|by apply label_chars_link_chars|done].
        rewrite Hfresh, bind_Ok.
        rewrite (sub_wiki_links_cons title2id true ")"%char post post);
          [|done|done|done].
        rewrite bind_Ok. f_equal. by rewrite <- !app_assoc.
      * apply before_reference_zettlr; [done|].
        by apply label_chars_open_free.
      * done.
      * by apply link_chars_weaken, label_chars_link_chars.
      * done.
    + set (label := reference_label title alias) in *.
      transitivity
        (sub_wiki_links title2id false
           (pre ++ T "[[" ++ reference_text id (Some label) ++ T "]]" ++ post)).
      { f_equal. cbn [reference_text]. by rewrite <- !app_assoc. }
      rewrite sub_wiki_links_reference.
      * rewrite (replace_wiki_link_reference title2id false id (Some label));
          [|by apply label_chars_link_chars|by apply label_chars_link_chars].
        rewrite Hfresh, bind_Ok, Hrest, bind_Ok. f_equal.
        cbn [reference_text]. by rewrite <- !app_assoc.
      * done.
      * cbn [reference_text]. by destruct id.
      * apply reference_text_chars; by apply label_chars_link_chars.
      * done.
  - rewrite <- !app_assoc. rewrite sub_wiki_links_reference.
    + rewrite (replace_wiki_link_reference title2id zettlr title alias);
        [|by apply label_chars_link_chars|by apply alias_link_chars].
      rewrite Hid, bind_Ok, Hrest, bind_Ok. by rewrite <- !app_assoc.
    + done.
    + done.
    + apply reference_text_chars;
        [by apply label_chars_link_chars | by apply alias_link_chars].
    + done.
Qed.
End SecondRun.

Section SecondRunBodies.
Variable title2id : gmap text text.
Variable zettlr : bool.
Hypothesis ids_fresh : fresh_ids title2id.

(** What the first run writes for a reference starts no embed. *)
Lemma rewritten_no_embed (pre title : text) (alias : option text)
    (post : text) :
  before_reference pre = true ->
  label_chars title = true ->
  from_option label_chars true alias = true ->
  has_embed post = false ->
  has_embed (pre ++ rewritten title2id zettlr title alias ++ post) = false.
Proof.
  intros Hpre Ht Ha Hpost.
  pose proof (reference_label_chars title alias Ht Ha) as Hl.
  apply label_chars_open_free in Hl.
  pose proof (reference_text_open_free title alias Ht Ha) as Hr.
  destruct (rewritten_starts title2id zettlr title alias) as [out Hout].
  rewrite Hout.
  change (("["%char :: out) ++ post) with ("["%char :: out ++ post).
  rewrite (has_embed_before pre _ Hpre).
  change ("["%char :: out ++ post) with (("["%char :: out) ++ post).
  rewrite <- Hout. clear out Hout. unfold rewritten, rewritten_reference.
  destruct (title2id !! title) as [id|] eqn:Hid.
  - destruct (ids_fresh title id Hid) as (_ & Hidc & _).
    apply label_chars_open_free in Hidc.
    destruct zettlr.
    + rewrite <- !app_assoc. simpl.
      rewrite has_embed_other by done.
      rewrite (has_embed_open_free (reference_label title alias)) by done.
      rewrite !has_embed_other by done.
      rewrite (has_embed_open_free id) by done.
      by rewrite !has_embed_other by done.
    + rewrite <- !app_assoc. simpl.
      rewrite !has_embed_other by done.
      rewrite (has_embed_open_free id) by done.
      rewrite has_embed_other by done.
      rewrite (has_embed_open_free (reference_label title alias)) by done.
      by rewrite !has_embed_other by done.
  - rewrite <- !app_assoc. simpl.
    rewrite !has_embed_other by done.
    rewrite (has_embed_open_free (reference_text title alias)) by done.
    by rewrite !has_embed_other by done.
Qed.

(** The first run on a body whose references are apart, and the second
    run on what it wrote. *)
Lemma separated_rewritten (body : text) :
  separated body ->
  exists out,
    sub_wiki_links title2id zettlr body = Ok out
    /\ sub_wiki_links title2id zettlr out = Ok out
    /\ has_embed out = false.
Proof.
  induction 1 as [s Hq | pre title alias post Hpre Hpost Ht Ha Hne _ IH].
  - exists s. unfold sub_wiki_links.
    rewrite re_sub_wiki_quiet_all; [|done|done].
    split_and!; [done|done|by apply has_embed_quiet].
  - destruct IH as (out & H1 & H2 & H3).
    exists (pre ++ rewritten title2id zettlr title alias ++ out).
    split_and!.
    + rewrite sub_wiki_links_reference; [|done|done| |done].
      * rewrite (replace_wiki_link_reference title2id zettlr title alias);
          [|by apply label_chars_link_chars|by apply alias_link_chars].
        by rewrite bind_Ok, H1, bind_Ok.
      * apply reference_text_chars;
          [by apply label_chars_link_chars | by apply alias_link_chars].
    + apply rewritten_again; try done.
      by apply (after_reference_rewritten title2id zettlr post out
                  (length post) None H1).
    + by apply rewritten_no_embed.
Qed.

Lemma replace_wiki_links_quiet (s : text) :
  quiet s = true -> replace_wiki_links title2id zettlr s = Ok s.
Proof.
  intros Hq. unfold replace_wiki_links, sub_wiki_links.
  rewrite re_sub_wiki_quiet_all; [|done|done].
  by rewrite bind_Ok, (replace_images_no_embed s (has_embed_quiet s Hq)).
Qed.
End SecondRunBodies.

Lemma quiet_open_free_app (u s : text) :
  open_free u = true -> quiet (u ++ s) = quiet s.
Proof.
  intros Hu. induction u as [|c u IH]; [done|].
  cbn [open_free forallb] in Hu. apply andb_prop in Hu as [Hc Hu].
  apply negb_true_iff in Hc.
  change ((c :: u) ++ s) with (c :: (u ++ s)). cbn [quiet].
  by rewrite (chr_eqb_sym c), Hc, (IH Hu).
Qed.

(** A Markdown image between texts without opening bracket holds no pair
    of opening brackets. *)
Lemma quiet_image (pre name post : text) :
  open_free pre = true -> open_free name = true -> open_free post = true ->
  quiet (pre ++ T "![](" ++ name ++ T ")" ++ post) = true.
Proof.
  intros Hpre Hn Hpost.
  rewrite (quiet_open_free_app pre _ Hpre).
  change (T "![](" ++ name ++ T ")" ++ post)
    with ("!"%char :: "["%char :: (T "](" ++ name ++ T ")" ++ post)).
  cbn [quiet]. rewrite chr_eqb_refl.
  rewrite (open_free_quiet (T "](" ++ name ++ T ")" ++ post)).
  - done.
  - by rewrite !open_free_app, Hn, Hpost.
Qed.


Lemma alpha_map_fresh : fresh_ids alpha_map.
Proof.
  intros title id H. unfold alpha_map in H.
  apply lookup_singleton_Some in H as [<- <-].
  split_and!; [discriminate | reflexivity | vm_compute; reflexivity].
Qed.


(** * Further properties *)

(** ** The three patterns for the front matter *)

Lemma front_lazy_Some (s g r : text) :
  front_lazy s = Some (g, r) -> s = g ++ (nl :: T "---") ++ r.
Proof.
  revert g r. induction s as [|c s IH]; intros g r; rewrite front_lazy_unfold.
  - destruct (prefix_of (nl :: T "---") []) eqn:E; [done|done].
  - destruct (prefix_of (nl :: T "---") (c :: s)) as [r'|] eqn:E.
    + intros [= <- <-]. by apply prefix_of_Some in E.
    + destruct (front_lazy s) as [[g' r']|]; [|done].
      intros [= <- <-]. by rewrite (IH g' r' eq_refl).
Qed.

Lemma front_open_Some (s g r : text) :
  front_open s = Some (g, r) ->
  exists ws, s = ws ++ [nl] ++ g ++ (nl :: T "---") ++ r
             /\ forallb isspace ws = true.
Proof.
  revert g r. induction s as [|c s IH]; intros g r; [done|].
  cbn [front_open]. destruct (isspace c) eqn:Ec; [|done].
  destruct (front_open s) as [[g' r']|] eqn:Eo.
  - intros [= <- <-]. destruct (IH g' r' eq_refl) as (ws & -> & Hws).
    exists (c :: ws). split; [done|]. simpl. by rewrite Ec, Hws.
  - destruct (is_nl c) eqn:En; [|done]. intros H.
    apply front_lazy_Some in H. apply chr_eqb_eq in En. subst c.
    exists []. by rewrite H.
Qed.

Lemma lstrip_split (s : text) :
  exists ws, s = ws ++ lstrip s /\ forallb isspace ws = true.
Proof.
  induction s as [|c s (ws & IH & Hws)]; [by exists []|].
  simpl. destruct (isspace c) eqn:Ec.
  - exists (c :: ws). split; [by rewrite IH at 1|]. simpl. by rewrite Ec, Hws.
  - by exists [].
Qed.

(** X1.  What [parse_yaml_front_matter] takes as front matter and body
    gives the text back: between them there are only the two lines of
    hyphens, with whitespace after the hyphens, and the body does not start
    with whitespace. *)
Theorem front_matter_match_shape (content front_matter body : text) :
  front_matter_match content = Some (front_matter, body) ->
  exists ws1 ws2,
    content = T "---" ++ ws1 ++ [nl] ++ front_matter ++ (nl :: T "---")
                ++ ws2 ++ body
    /\ forallb isspace ws1 = true
    /\ forallb isspace ws2 = true
    /\ lstrip body = body.
Proof.
  unfold front_matter_match. intros H.
  destruct (prefix_of (T "---") content) as [r|] eqn:Ep; [|done].
  apply prefix_of_Some in Ep. subst content. cbn [mbind option_bind] in H.
  destruct (front_open r) as [[g r']|] eqn:Eo; [|done].
  cbn [mbind option_bind fst snd] in H. injection H as <- <-.
  destruct (front_open_Some r g r' Eo) as (ws1 & -> & Hws1).
  destruct (lstrip_split r') as (ws2 & Hr' & Hws2).
  exists ws1, ws2. split_and!; [|done|done|apply lstrip_idem].
  by rewrite Hr' at 1.
Qed.

Lemma front_matter_match_shape_witness :
  exists ws1 ws2,
    document (T "a: b") (nl :: T "Body")
    = T "---" ++ ws1 ++ [nl] ++ T "a: b" ++ (nl :: T "---") ++ ws2 ++ T "Body"
    /\ forallb isspace ws1 = true
    /\ forallb isspace ws2 = true
    /\ lstrip (T "Body") = T "Body".
Proof.
  apply (front_matter_match_shape (document (T "a: b") (nl :: T "Body"))
           (T "a: b") (T "Body")).
  vm_compute. reflexivity.
Defined.

Lemma front_lazy_later (a s : text) :
  is_Some (front_lazy s) -> is_Some (front_lazy (a ++ s)).
Proof.
  intros Hs. induction a as [|c a IH]; [done|].
  change ((c :: a) ++ s) with (c :: (a ++ s)). rewrite front_lazy_unfold.
  destruct (prefix_of (nl :: T "---") (c :: a ++ s)); [done|].
  destruct IH as [[g r] ->]. done.
Qed.

Lemma front_open_open_line (s : text) :
  is_Some (front_open s) -> open_line s = true.
Proof.
  induction s as [|c s IH]; intros [m Hm]; [done|].
  cbn [front_open] in Hm. cbn [open_line].
  destruct (isspace c); [|done]. cbn [andb].
  destruct (front_open s) as [m'|].
  - rewrite IH; [apply orb_true_r | done].
  - by destruct (is_nl c).
Qed.

Lemma strict_is_front_match (content : text) :
  strict_front_match content = true -> is_Some (front_matter_match content).
Proof.
  unfold strict_front_match, front_matter_match.
  destruct (prefix_of (T "---") content) as [[|c r]|];
    cbn [mbind option_bind]; try done.
  intros [Hc Hl]%andb_prop.
  apply bool_decide_eq_true in Hl. apply chr_eqb_eq in Hc. subst c.
  cbn [front_open]. replace (isspace nl) with true by reflexivity.
  destruct (front_open r) as [m|]; [done|].
  replace (is_nl nl) with true by reflexivity.
  by destruct Hl as [m ->].
Qed.

(** X2.  The three patterns that look for a front matter are ordered:
    where the strict one of [metadata_init] matches, the one of
    [parse_yaml_front_matter] matches, and where that one matches, the one
    of [apply_folder2type] matches. *)
Theorem front_patterns_ordered (content : text) :
  (strict_front_match content = true ->
   is_Some (front_matter_match content))
  /\ (is_Some (front_matter_match content) ->
      open_front_match content = true).
Proof.
  split; [apply strict_is_front_match|].
  unfold front_matter_match, open_front_match.
  destruct (prefix_of (T "---") content) as [r|]; cbn [mbind option_bind].
  - intros [m Hm]. apply front_open_open_line.
    destruct (front_open r); [done|done].
  - by intros [m Hm].
Qed.

Lemma front_patterns_ordered_witness :
  is_Some (front_matter_match (document (T "a: b") (T "Body")))
  /\ open_front_match (document (T "a: b") (T "Body")) = true.
Proof.
  destruct (front_patterns_ordered (document (T "a: b") (T "Body")))
    as [H1 H2].
  assert (is_Some (front_matter_match (document (T "a: b") (T "Body"))))
    as H by (apply H1; reflexivity).
  split; [exact H | exact (H2 H)].
Defined.

Lemma str_replace_first_head (old new r : text) :
  str_replace_first (old ++ r) old new = new ++ r.
Proof.
  destruct (old ++ r) as [|c s] eqn:E;
    cbn [str_replace_first]; rewrite <- E, prefix_of_app; done.
Qed.

(** The text with a field added, in both cases of [insert_field]. *)
Lemma insert_field_shape (content field : text) :
  exists rest,
    insert_field content field = T "---" ++ nl :: field ++ rest
    /\ is_Some (front_lazy rest).
Proof.
  unfold insert_field. destruct (strict_front_match content) eqn:Es.
  - unfold strict_front_match in Es.
    destruct (prefix_of (T "---") content) as [[|c r]|] eqn:Ep; try done.
    apply andb_prop in Es as [Hc Hl]. apply bool_decide_eq_true in Hl.
    apply chr_eqb_eq in Hc. subst c. apply prefix_of_Some in Ep. subst.
    rewrite str_replace_first_head. exists (nl :: r).
    split; [by rewrite <- !app_assoc|].
    by apply (front_lazy_later [nl]).
  - exists (nl :: T "---" ++ nl :: content). split; [done|].
    rewrite front_lazy_unfold.
    change (nl :: T "---" ++ nl :: content)
      with ((nl :: T "---") ++ nl :: content).
    by rewrite prefix_of_app.
Qed.

(** X3.  Once [metadata_init] has added a field to a text, its strict
    pattern matches the text, whatever the text was: a second field goes
    into the same block. *)
Theorem insert_field_strict (content field : text) :
  strict_front_match (insert_field content field) = true.
Proof.
  destruct (insert_field_shape content field) as (rest & -> & Hrest).
  unfold strict_front_match. rewrite prefix_of_app.
  replace (is_nl nl) with true by reflexivity. cbn [andb].
  apply bool_decide_eq_true. by apply front_lazy_later.
Qed.

Lemma front_lazy_line (field rest g r : text) :
  forallb (fun c => negb (is_nl c)) field = true ->
  front_lazy rest = Some (g, r) ->
  front_lazy (field ++ rest) = Some (field ++ g, r).
Proof.
  intros Hf Hrest. induction field as [|c f IH]; [done|].
  cbn [forallb] in Hf. apply andb_prop in Hf as [Hc Hf].
  apply negb_true_iff in Hc.
  change ((c :: f) ++ rest) with (c :: (f ++ rest)). rewrite front_lazy_unfold.
  assert (prefix_of (nl :: T "---") (c :: f ++ rest) = None) as ->.
  { cbn [prefix_of]. unfold is_nl in Hc. by rewrite chr_eqb_sym, Hc. }
  by rewrite (IH Hf).
Qed.



(** ** The identity assigner on the files *)

Section IdentityInvariants.
Variable safe_load : text -> result value.
Variable creationdate : bool.
Variable creation_stamp : text -> text.

(** What one turn of the loop of [metadata_init] keeps. *)
Lemma metadata_init_file_inv (st st' : run_state) (file : text) :
  metadata_init_file safe_load creationdate creation_stamp st file = Ok st' ->
  (forall f, f <> file -> files_of st' !! f = files_of st !! f)
  /\ (currentId st <= currentId st' <= currentId st + 1)%Z
  /\ (creationdate = true -> currentId st' = currentId st)
  /\ (exists title id, title2id_of st' = (title, id) :: title2id_of st).
Proof.
  unfold metadata_init_file. intros H.
  destruct (read_file (files_of st) file) as [content|]; [|done].
  rewrite bind_Ok in H.
  destruct (parse_yaml_front_matter safe_load content) as [[fm body]|];
    [|done].
  rewrite bind_Ok in H. cbn [fst] in H.
  destruct (front_matter_get fm (T "id")) as [id|]; [|done].
  rewrite bind_Ok in H.
  destruct (front_matter_get fm (T "title")) as [title|]; [|done].
  rewrite bind_Ok in H.
  unfold create_id in H.
  destruct (is_none id), creationdate, (is_none title); cbn in H;
    repeat match type of H with
      | context [read_file ?fs ?f] => destruct (read_file fs f); cbn in H
      | context [hashable ?t] => destruct (hashable t); cbn in H
      end;
    try done; injection H as <-; cbn;
    (split; [|split; [|split]];
     [ intros f Hf; by rewrite ?lookup_insert_ne by done
     | lia | done || (intros; lia) | by do 2 eexists ]).
Qed.

Lemma metadata_init_from_inv (files : list text) (st st' : run_state) :
  metadata_init_from safe_load creationdate creation_stamp st files = Ok st' ->
  (forall f, f ∉ files -> files_of st' !! f = files_of st !! f)
  /\ (currentId st <= currentId st'
      <= currentId st + Z.of_nat (length files))%Z
  /\ (creationdate = true -> currentId st' = currentId st)
  /\ (exists new, title2id_of st' = new ++ title2id_of st
                  /\ length new = length files).
Proof.
  revert st. induction files as [|file files IH]; intros st H.
  - injection H as <-.
    split; [|split; [|split]]; [done|simpl; lia|done|by exists []].
  - cbn [metadata_init_from] in H.
    destruct (metadata_init_file safe_load creationdate creation_stamp st file)
      as [st1|] eqn:E1; [|done].
    rewrite bind_Ok in H.
    destruct (metadata_init_file_inv st st1 file E1)
      as (F1 & C1 & D1 & (title & id & A1)).
    destruct (IH st1 H) as (F2 & C2 & D2 & (new & A2 & L2)).
    split; [|split; [|split]].
    + intros f Hf. apply not_elem_of_cons in Hf as [Hne Hf].
      by rewrite (F2 f Hf), (F1 f Hne).
    + simpl length. lia.
    + intros Hd. by rewrite (D2 Hd), (D1 Hd).
    + exists (new ++ [(title, id)]). rewrite A2, A1, <- app_assoc.
      split; [done|]. rewrite length_app. simpl. lia.
Qed.


(** X6.  The counter only moves forward, by at most one for each file, and
    it does not move when the identifiers are creation dates. *)
Theorem metadata_init_counter (fs : gmap text text) (cur : Z)
    (files : list text) (st' : run_state) :
  metadata_init safe_load creationdate creation_stamp fs cur files = Ok st' ->
  (cur <= currentId st' <= cur + Z.of_nat (length files))%Z
  /\ (creationdate = true -> currentId st' = cur).
Proof.
  intros H.
  destruct (metadata_init_from_inv files _ st' H) as (_ & C & D & _).
  by split.
Qed.

(** X7.  [metadata_init] makes one assignment to [title2id] for each file
    it is given. *)
Theorem metadata_init_assignments (fs : gmap text text) (cur : Z)
    (files : list text) (st' : run_state) :
  metadata_init safe_load creationdate creation_stamp fs cur files = Ok st' ->
  length (title2id_of st') = length files.
Proof.
  intros H.
  destruct (metadata_init_from_inv files _ st' H)
    as (_ & _ & _ & (new & A & L)).
  rewrite A, length_app. simpl. lia.
Qed.

(** X8.  A note without front matter gets a block of two lines, the title
    taken from the name of the file and then the identifier, before its
    text, which is kept; the loader is not asked. *)
Theorem metadata_init_file_bare (st : run_state) (file content : text) :
  files_of st !! file = Some content ->
  front_matter_match content = None ->
  metadata_init_file safe_load creationdate creation_stamp st file
  = Ok (RunState
          (<[file := T "---" ++ nl :: T "title: " ++ stem file
                       ++ nl :: T "id: "
                       ++ str_of_id
                            (fst (create_id creationdate creation_stamp file
                                    (currentId st)))
                       ++ nl :: T "---" ++ nl :: content]> (files_of st))
          (snd (create_id creationdate creation_stamp file (currentId st)))
          ((VStr false (stem file),
            fst (create_id creationdate creation_stamp file (currentId st)))
             :: title2id_of st)).
Proof.
  intros Hfile Hbare.
  destruct (create_id creationdate creation_stamp file (currentId st))
    as [id cur] eqn:Eid.
  unfold metadata_init_file, read_file. rewrite Hfile, bind_Ok.
  unfold parse_yaml_front_matter. rewrite Hbare, bind_Ok.
  cbn [fst snd front_matter_get dict_get default from_option].
  rewrite !bind_Ok. cbn [is_none]. rewrite Eid.
  rewrite lookup_insert_eq, bind_Ok.
  assert (strict_front_match content = false) as Hstrict.
  { destruct (strict_front_match content) eqn:E; [|done].
    apply strict_is_front_match in E. rewrite Hbare in E. by destruct E. }
  unfold insert_field at 2. rewrite Hstrict.
  set (first := T "id: " ++ str_of_id id).
  assert (insert_field (T "---" ++ [nl] ++ first ++ [nl] ++ T "---"
                          ++ [nl] ++ content) (T "title: " ++ stem file)
          = T "---" ++ nl :: T "title: " ++ stem file ++ nl :: first
              ++ nl :: T "---" ++ nl :: content) as ->.
  { unfold insert_field.
    assert (strict_front_match (T "---" ++ [nl] ++ first ++ [nl] ++ T "---"
                                  ++ [nl] ++ content) = true) as ->.
    { unfold strict_front_match. rewrite prefix_of_app.
      replace (is_nl nl) with true by reflexivity. cbn [andb app].
      apply bool_decide_eq_true. apply front_lazy_later.
      rewrite front_lazy_unfold.
      change (nl :: T "---" ++ nl :: content)
        with ((nl :: T "---") ++ nl :: content).
      by rewrite prefix_of_app. }
    rewrite str_replace_first_head. by rewrite <- !app_assoc. }
  rewrite bind_Ok. cbn [hashable]. by rewrite insert_insert_eq.
Qed.
End IdentityInvariants.


Lemma metadata_init_counter_witness :
  (20240101000000 <= 20240101000001
   <= 20240101000000 + Z.of_nat (length [T "note.md"]))%Z
  /\ (false = true -> 20240101000001%Z = 20240101000000%Z).
Proof.
  apply (metadata_init_counter spaced_load false (fun _ => [])
           {[ T "note.md" := spaced_note ]} 20240101000000 [T "note.md"]
           (RunState {[ T "note.md" := spaced_note_written ]} 20240101000001
              [(VStr false (T "X"), VInt 20240101000001)])).
  vm_compute. reflexivity.
Defined.

Lemma metadata_init_assignments_witness :
  length [(VStr false (T "X"), VInt 20240101000001)] = length [T "note.md"].
Proof.
  apply (metadata_init_assignments spaced_load false (fun _ => [])
           {[ T "note.md" := spaced_note ]} 20240101000000 [T "note.md"]
           (RunState {[ T "note.md" := spaced_note_written ]} 20240101000001
              [(VStr false (T "X"), VInt 20240101000001)])).
  vm_compute. reflexivity.
Defined.

Lemma metadata_init_file_bare_witness :
  metadata_init_file spaced_load false (fun _ => [])
    (RunState {[ T "a b.md" := T "hello" ]} 41 []) (T "a b.md")
  = Ok (RunState
          (<[T "a b.md" := T "---" ++ nl :: T "title: " ++ T "a b"
                             ++ nl :: T "id: " ++ T "42"
                             ++ nl :: T "---" ++ nl :: T "hello"]>
             {[ T "a b.md" := T "hello" ]})
          42 [(VStr false (T "a b"), VInt 42)]).
Proof.
  rewrite (metadata_init_file_bare spaced_load false (fun _ => [])
             (RunState {[ T "a b.md" := T "hello" ]} 41 []) (T "a b.md")
             (T "hello")); vm_compute; reflexivity.
Defined.

(** ** What the normaliser leaves *)

Lemma text_eqb_refl (s : text) : text_eqb s s = true.
Proof. by apply text_eqb_eq. Qed.

Lemma normalize_item_normal (kv : text * value) :
  normal_value (_normalize_value (snd kv)) = true ->
  normal_item (normalize_item kv) = true.
Proof.
  intros H. unfold normal_item, normalize_item. cbn [fst snd].
  by rewrite _normalize_key_idem, text_eqb_refl, H.
Qed.

Lemma normalize_items_normal (d : list (text * value)) :
  Forall (fun kv => normal_value (_normalize_value (snd kv)) = true) d ->
  forallb normal_item (dict_of_items (map normalize_item d)) = true.
Proof.
  intros Hd.
  assert (Forall (fun kv => normal_item kv = true)
            (dict_of_items (map normalize_item d))) as HF.
  { apply dict_of_items_Forall, Forall_map.
    eapply Forall_impl; [exact Hd|].
    intros x Hx. by apply normalize_item_normal. }
  apply forallb_forall. intros kv Hin.
  rewrite Forall_forall in HF. apply HF. by apply list_elem_of_In.
Qed.

Lemma _normalize_value_normal (val : value) :
  normal_value (_normalize_value val) = true.
Proof.
  induction val as [| q s | z | b | l IH | d IH] using value_nested_ind.
  - done.
  - cbn [_normalize_value]. destruct (strip s) as [|c t] eqn:E; [done|].
    cbn [normal_value]. by rewrite <- E, strip_idem, text_eqb_refl.
  - done.
  - done.
  - cbn [_normalize_value normal_value]. apply forallb_forall.
    intros x [y [<- Hy]]%in_map_iff.
    rewrite Forall_forall in IH. apply IH. by apply list_elem_of_In.
  - cbn [_normalize_value normal_value]. by apply normalize_items_normal.
Qed.

(** X9.  In the header that [reformat_yaml_front_matter_in_file] builds no
    two keys are equal, every key is one that [_normalize_key] leaves as it
    is, and in every value, at any depth, there is no null left and every
    string is marked for quotes, stripped and not empty. *)
Theorem normalize_header_normal (data : list (text * value)) :
  NoDup (map fst (normalize_header data))
  /\ forallb normal_item (normalize_header data) = true.
Proof.
  rewrite normalize_header_items. split.
  - apply dict_of_items_NoDup.
  - apply normalize_items_normal. apply Forall_forall.
    intros kv _. apply _normalize_value_normal.
Qed.

Section DictLookup.
Context {V : Type}.
Implicit Types (d : list (text * V)) (k : text) (v : V).

Lemma dict_get_set_eq d k v : dict_get (dict_set d k v) k = Some v.
Proof.
  induction d as [|[k' v'] d IH]; simpl.
  - by rewrite text_eqb_refl.
  - destruct (text_eqb k' k) eqn:E; simpl.
    + by rewrite text_eqb_refl.
    + by rewrite E.
Qed.

Lemma dict_get_set_ne d k k' v :
  k <> k' -> dict_get (dict_set d k v) k' = dict_get d k'.
Proof.
  intros Hne. induction d as [|[k0 v0] d IH]; simpl.
  - destruct (text_eqb k k') eqn:E; [|done]. by apply text_eqb_eq in E.
  - destruct (text_eqb k0 k) eqn:E; simpl.
    + apply text_eqb_eq in E. subst k0.
      destruct (text_eqb k k') eqn:E'; [|done]. by apply text_eqb_eq in E'.
    + by rewrite IH.
Qed.
End DictLookup.

Lemma normalize_header_snoc (data : list (text * value)) (kv : text * value) :
  normalize_header (data ++ [kv])
  = dict_set (normalize_header data) (_normalize_key (fst kv))
      (_normalize_value (snd kv)).
Proof. unfold normalize_header. by rewrite fold_left_app. Qed.

(** X10.  When two keys of a header become the same key, the later value
    is the one that is kept: after the last item of a header its
    normalised key holds its normalised value, and the other keys hold what
    they held without it. *)
Theorem normalize_header_last_wins (data : list (text * value))
    (key : text) (val : value) (other : text) :
  dict_get (normalize_header (data ++ [(key, val)])) (_normalize_key key)
  = Some (_normalize_value val)
  /\ (other <> _normalize_key key ->
      dict_get (normalize_header (data ++ [(key, val)])) other
      = dict_get (normalize_header data) other).
Proof.
  rewrite normalize_header_snoc. cbn [fst snd]. split.
  - apply dict_get_set_eq.
  - intros Hne. by apply dict_get_set_ne.
Qed.

Lemma normalize_header_last_wins_witness :
  dict_get
    (normalize_header ([(T "Tags", VStr false (T "a"))]
                         ++ [(T " tags", VStr false (T "b "))]))
    (_normalize_key (T " tags"))
  = Some (_normalize_value (VStr false (T "b ")))
  /\ dict_get
       (normalize_header ([(T "Tags", VStr false (T "a"))]
                            ++ [(T " tags", VStr false (T "b "))]))
       (T "date")
     = dict_get (normalize_header [(T "Tags", VStr false (T "a"))]) (T "date").
Proof.
  destruct (normalize_header_last_wins [(T "Tags", VStr false (T "a"))]
              (T " tags") (VStr false (T "b ")) (T "date")) as [H1 H2].
  split; [exact H1|]. apply H2. vm_compute. discriminate.
Defined.

Section CodecBack.
Variable safe_load : text -> result value.
Variable safe_dump : value -> text.

(** X11.  What [reformat_yaml_front_matter_in_file] writes is read back
    by [parse_yaml_front_matter] with the dumped header as front matter
    and the body without the whitespace before it as body, when the dump
    is a plain front matter. *)
Theorem dump_front_matter_parsed (new_data : value) (body : text) :
  plain_front_matter (rstrip (safe_dump new_data)) = true ->
  front_matter_match (dump_front_matter safe_dump new_data body)
  = Some (rstrip (safe_dump new_data), lstrip body).
Proof.
  intros Hplain. unfold dump_front_matter.
  change (T "---" ++ [nl] ++ rstrip (safe_dump new_data) ++ [nl] ++ T "---"
            ++ [nl] ++ lstrip body)
    with (document (rstrip (safe_dump new_data)) (lstrip body)).
  by rewrite front_matter_match_document, lstrip_idem.
Qed.

Lemma front_matter_match_shorter (content front_matter body : text) :
  front_matter_match content = Some (front_matter, body) ->
  length body < length content.
Proof.
  unfold front_matter_match. intros H.
  destruct (prefix_of (T "---") content) as [r|] eqn:Ep; [|done].
  apply prefix_of_Some in Ep. subst content. cbn [mbind option_bind] in H.
  destruct (front_open r) as [[g r']|] eqn:Eo; [|done].
  cbn [mbind option_bind fst snd] in H. injection H as <- <-.
  destruct (front_open_Some r g r' Eo) as (ws & -> & _).
  pose proof (length_lstrip r') as Hl.
  rewrite !length_app. simpl. lia.
Qed.

(** X12.  [reformat_yaml_front_matter_in_file] returns [False] and writes
    nothing exactly when the pattern finds no front matter in the text: a
    front matter that is empty, or that loads as an empty mapping, is
    rewritten all the same. *)
Theorem reformat_without_front_matter (content : text) :
  reformat_yaml_front_matter safe_load safe_dump content = Ok None
  <-> front_matter_match content = None.
Proof.
  unfold reformat_yaml_front_matter, parse_yaml_front_matter. split.
  - destruct (front_matter_match content) as [[fm body]|] eqn:E; [|done].
    apply front_matter_match_shorter in E.
    destruct (safe_load fm) as [data|e]; [|done]. rewrite !bind_Ok.
    assert (text_eqb body content = false) as ->.
    { apply bool_decide_eq_false. intros ->. lia. }
    rewrite andb_false_r.
    by destruct (match data with VNone => VDict [] | _ => data end).
  - intros ->. rewrite bind_Ok. cbn [is_empty_dict andb].
    by rewrite text_eqb_refl.
Qed.
End CodecBack.

Lemma dump_front_matter_parsed_witness :
  front_matter_match
    (dump_front_matter ab_dump (VDict [(T "a", VStr true (T "b"))])
       (nl :: T "Body"))
  = Some (rstrip (ab_dump (VDict [(T "a", VStr true (T "b"))])),
          lstrip (nl :: T "Body")).
Proof.
  apply (dump_front_matter_parsed ab_dump
           (VDict [(T "a", VStr true (T "b"))]) (nl :: T "Body")).
  vm_compute. reflexivity.
Defined.

Lemma reformat_without_front_matter_witness :
  reformat_yaml_front_matter ab_load ab_dump (T "no header here") = Ok None.
Proof.
  apply (reformat_without_front_matter ab_load ab_dump (T "no header here")).
  vm_compute. reflexivity.
Defined.

(** ** What the filter selects *)

Section FilterSelection.
Variable safe_load : text -> result value.
Variable read : text -> text.
Variable type tags : option text.

(** A turn of the loop appends nothing, or the file of the turn, once. *)
Lemma filter_file_cases (file : text) (selected : list text) :
  filter_file safe_load read type tags file = Ok selected ->
  selected = []
  \/ (selected = [file]
      /\ (endswith file (T ".md") || is_image file) = true).
Proof.
  unfold filter_file. destruct (endswith file (T ".md")) eqn:Emd.
  - rewrite (md_not_image file Emd).
    destruct (parse_yaml_front_matter safe_load (read file)) as [p|e];
      [|done].
    rewrite bind_Ok.
    destruct (tags_ok tags (fst p) (read file)) as [[|]|e]; try done;
      rewrite bind_Ok.
    + destruct (type_ok type (fst p)) as [[|]|e]; try done; rewrite bind_Ok.
      * intros [= <-]. by right.
      * intros [= <-]. by left.
    + intros [= <-]. by left.
  - destruct (is_image file) eqn:Ei; intros [= <-]; [by right | by left].
Qed.

Lemma filter_files_cons (file : text) (files selected : list text) :
  filter_files safe_load read type tags (file :: files) = Ok selected ->
  exists sel rest,
    filter_file safe_load read type tags file = Ok sel
    /\ filter_files safe_load read type tags files = Ok rest
    /\ selected = sel ++ rest.
Proof.
  cbn [filter_files].
  destruct (filter_file safe_load read type tags file) as [sel|e]; [|done].
  rewrite bind_Ok.
  destruct (filter_files safe_load read type tags files) as [rest|e];
    [|done].
  rewrite bind_Ok. intros [= <-]. by exists sel, rest.
Qed.

(** X13.  What [filter_files] returns is taken from the list it was
    given: the same names in the same order, none of them more often than
    the list has it, and every one of them a Markdown file or an image. *)
Theorem filter_files_sublist (files selected : list text) :
  filter_files safe_load read type tags files = Ok selected ->
  sublist selected files
  /\ Forall (fun file => (endswith file (T ".md") || is_image file) = true)
       selected.
Proof.
  revert selected. induction files as [|f files IH]; intros selected H.
  - injection H as <-. split; [done | constructor].
  - apply filter_files_cons in H as (sel & rest & Hf & Hr & ->).
    destruct (IH rest Hr) as [Hsub Hall].
    apply filter_file_cases in Hf as [-> | [-> Hkind]].
    + split; [by apply sublist_cons | done].
    + split; [by apply sublist_skip | by constructor].
Qed.

(** X14.  When neither a type nor tags are asked for, [filter_files]
    selects every Markdown file and every image of the list, as long as
    the front matter of every Markdown file loads. *)
Theorem filter_files_no_criteria (files : list text) :
  truthy type = false ->
  truthy tags = false ->
  Forall (fun file =>
            endswith file (T ".md") = true ->
            exists parsed,
              parse_yaml_front_matter safe_load (read file) = Ok parsed)
         files ->
  filter_files safe_load read type tags files
  = Ok (List.filter (fun file => endswith file (T ".md") || is_image file)
         files).
Proof.
  intros Hty Htg Hload.
  assert (forall fm content, tags_ok tags fm content = Ok true) as Htags.
  { intros fm content. unfold tags_ok. by destruct tags as [[|c t]|]. }
  assert (forall fm, type_ok type fm = Ok true) as Htype.
  { intros fm. unfold type_ok. by destruct type as [[|c t]|]. }
  induction Hload as [|f files Hf _ IH]; [done|].
  cbn [filter_files List.filter]. rewrite IH. unfold filter_file.
  destruct (endswith f (T ".md")) eqn:Emd.
  - destruct (Hf eq_refl) as [p ->].
    rewrite bind_Ok, Htags, bind_Ok, Htype, !bind_Ok.
    by rewrite (md_not_image f Emd).
  - by destruct (is_image f) eqn:Ei; rewrite !bind_Ok.
Qed.

(** X15.  A Markdown file that [filter_files] selects when a type is
    asked for has a mapping as front matter, and the mapping holds that
    type under the key [type]. *)
Theorem filter_files_type (files selected : list text) (file wanted : text) :
  type = Some wanted ->
  wanted <> [] ->
  filter_files safe_load read type tags files = Ok selected ->
  file ∈ selected ->
  endswith file (T ".md") = true ->
  exists d body v,
    parse_yaml_front_matter safe_load (read file) = Ok (VDict d, body)
    /\ dict_get d (T "type") = Some v
    /\ value_is_str wanted v = true.
Proof.
  intros Hty Hne. revert selected.
  induction files as [|f files IH]; intros selected H Hin Hmd.
  - injection H as <-. by apply elem_of_nil in Hin.
  - apply filter_files_cons in H as (sel & rest & Hf & Hr & ->).
    apply elem_of_app in Hin as [Hin|Hin]; [|by apply (IH rest)].
    pose proof Hf as Hcases.
    apply filter_file_cases in Hcases as [-> | [-> _]];
      [by apply elem_of_nil in Hin|].
    apply list_elem_of_singleton in Hin. subst f.
    unfold filter_file in Hf. rewrite Hmd in Hf.
    destruct (parse_yaml_front_matter safe_load (read file)) as [[fm body]|e];
      [|done].
    rewrite bind_Ok in Hf. cbn [fst] in Hf.
    destruct (tags_ok tags fm (read file)) as [[|]|e]; try done;
      rewrite bind_Ok in Hf.
    destruct (type_ok type fm) as [[|]|e] eqn:Et; try done.
    unfold type_ok in Et. rewrite Hty in Et.
    destruct wanted as [|c w]; [done|].
    destruct fm as [| q s | z | b | l | d]; try done.
    + by destruct (is_substring (T "type") s).
    + by destruct (existsb (value_is_str (T "type")) l).
    + destruct (dict_get d (T "type")) as [v|] eqn:Ed; [|done].
      injection Et as Et. by exists d, body, v.
Qed.
End FilterSelection.

Lemma filter_files_sublist_witness :
  sublist [T "photo.png"] [T "note.md"; T "photo.png"]
  /\ Forall (fun file => (endswith file (T ".md") || is_image file) = true)
       [T "photo.png"].
Proof.
  apply (filter_files_sublist demo_load demo_read (Some (T "article"))
           (Some (T "physics")) [T "note.md"; T "photo.png"]
           [T "photo.png"]).
  vm_compute. reflexivity.
Defined.

Lemma filter_files_no_criteria_witness :
  filter_files demo_load demo_read None None
    [T "note.md"; T "todo.txt"; T "photo.png"]
  = Ok (List.filter (fun file => endswith file (T ".md") || is_image file)
          [T "note.md"; T "todo.txt"; T "photo.png"]).
Proof.
  apply (filter_files_no_criteria demo_load demo_read None None
           [T "note.md"; T "todo.txt"; T "photo.png"]).
  - reflexivity.
  - reflexivity.
  - repeat constructor.
    + intros _. eexists. vm_compute. reflexivity.
    + intros H. vm_compute in H. discriminate.
    + intros H. vm_compute in H. discriminate.
Defined.

Lemma filter_files_type_witness :
  exists d body v,
    parse_yaml_front_matter demo_load (demo_read (T "note.md"))
    = Ok (VDict d, body)
    /\ dict_get d (T "type") = Some v
    /\ value_is_str (T "draft") v = true.
Proof.
  apply (filter_files_type demo_load demo_read (Some (T "draft")) None
           [T "note.md"; T "photo.png"] [T "note.md"; T "photo.png"]
           (T "note.md") (T "draft")).
  - reflexivity.
  - discriminate.
  - vm_compute. reflexivity.
  - apply elem_of_cons. by left.
  - vm_compute. reflexivity.
Defined.

(** ** Errors and ghost notes of the reference rewriter *)

Lemma split_on_length (sep : ascii) (s : text) :
  length (split_on sep s) = S (count_chr sep s).
Proof.
  unfold count_chr. induction s as [|c s IH]; [done|].
  cbn [split_on List.filter]. rewrite (chr_eqb_sym sep c).
  destruct (chr_eqb c sep).
  - cbn [length]. by rewrite IH.
  - destruct (split_on sep s) as [|p ps]; [done|]. by rewrite <- IH.
Qed.

Lemma contains_chr_count (sep : ascii) (s : text) :
  contains_chr sep s = true -> 1 <= count_chr sep s.
Proof.
  unfold contains_chr, count_chr. induction s as [|c s IH]; [done|].
  cbn [existsb List.filter]. destruct (chr_eqb sep c); [simpl; lia|].
  apply IH.
Qed.

(** The callback raises one exception only, and on a text with two pipes
    or more. *)
Lemma replace_wiki_link_raises (title2id : gmap text text) (zettlr : bool)
    (link_text : text) (e : exn) :
  replace_wiki_link title2id zettlr link_text = Raise e ->
  e = ValueError /\ 2 <= count_chr "|"%char link_text.
Proof.
  unfold replace_wiki_link.
  destruct (contains_chr "|"%char link_text) eqn:Ec.
  - pose proof (split_on_length "|"%char link_text) as Hl.
    pose proof (contains_chr_count _ _ Ec) as Hc.
    destruct (split_on "|"%char link_text) as [|a [|b [|c l]]] eqn:Es;
      simpl in Hl.
    + intros [= <-]. lia.
    + intros [= <-]. lia.
    + destruct (title2id !! a); [by destruct zettlr | done].
    + intros [= <-]. split; [done | lia].
  - destruct (title2id !! link_text); [by destruct zettlr | done].
Qed.

(** An exception of the scan is an exception of the callback on a
    reference of the text. *)
Lemma re_sub_wiki_raise (repl : text -> result text) (fuel : nat)
    (prev : option ascii) (s : text) (e : exn) :
  length s <= fuel ->
  re_sub wiki_link_matcher repl fuel prev s = Raise e ->
  exists pre g post,
    s = pre ++ T "[[" ++ g ++ T "]]" ++ post /\ repl g = Raise e.
Proof.
  revert prev s. induction fuel as [|fuel IH]; intros prev [|c s] Hf H;
    simpl in Hf; try done; try lia.
  cbn [re_sub] in H.
  destruct (wiki_link_matcher prev (c :: s)) as [[g r]|] eqn:E.
  - pose proof (wiki_link_matcher_Some _ _ _ _ E) as [Hs _].
    destruct (repl g) as [o|e'] eqn:Er.
    + rewrite bind_Ok in H.
      destruct (re_sub wiki_link_matcher repl fuel
                  (last (consumed (c :: s) r)) r) as [rest|e'] eqn:Erest;
        [done|].
      rewrite bind_Raise in H. injection H as ->.
      apply IH in Erest as (pre & g' & post & -> & Hg').
      * exists (T "[[" ++ g ++ T "]]" ++ pre), g', post.
        split; [|done]. rewrite Hs. by rewrite <- !app_assoc.
      * apply wiki_link_matcher_shrinks in E. simpl in E. lia.
    + rewrite bind_Raise in H. injection H as ->. by exists [], g, r.
  - destruct (re_sub wiki_link_matcher repl fuel (Some c) s)
      as [rest|e'] eqn:Erest; [done|].
    rewrite bind_Raise in H. injection H as ->.
    apply IH in Erest as (pre & g & post & -> & Hg); [|lia].
    by exists (c :: pre), g, post.
Qed.



Lemma replace_wiki_link_ghost (title2id : gmap text text) (zettlr : bool)
    (link_text out : text) :
  title2id !! link_title link_text = None ->
  replace_wiki_link title2id zettlr link_text = Ok out ->
  out = T "[[" ++ link_text ++ T "]]".
Proof.
  unfold replace_wiki_link, link_title. intros Hg.
  destruct (contains_chr "|"%char link_text) eqn:Ec.
  - destruct (split_on "|"%char link_text) as [|a [|b [|c l]]]; try done.
    cbn [hd] in Hg. rewrite Hg. by intros [= <-].
  - rewrite (split_on_none _ _ Ec) in Hg. cbn [hd] in Hg. rewrite Hg.
    by intros [= <-].
Qed.

Lemma re_sub_wiki_same (repl : text -> result text) (fuel : nat)
    (prev : option ascii) (s out : text) :
  (forall pre g post o,
     s = pre ++ T "[[" ++ g ++ T "]]" ++ post -> repl g = Ok o ->
     o = T "[[" ++ g ++ T "]]") ->
  re_sub wiki_link_matcher repl fuel prev s = Ok out -> out = s.
Proof.
  revert prev s out. induction fuel as [|fuel IH]; intros prev [|c s] out Hg H;
    try done; cbn [re_sub] in H; try by injection H.
  destruct (wiki_link_matcher prev (c :: s)) as [[g r]|] eqn:E.
  - pose proof (wiki_link_matcher_Some _ _ _ _ E) as [Hs _].
    destruct (repl g) as [o|e'] eqn:Er; [|done]. rewrite bind_Ok in H.
    destruct (re_sub wiki_link_matcher repl fuel
                (last (consumed (c :: s) r)) r) as [rest|e'] eqn:Erest;
      [|done].
    rewrite bind_Ok in H. injection H as <-.
    rewrite (Hg [] g r o Hs Er).
    assert (rest = r) as ->.
    { apply (IH (last (consumed (c :: s) r)) r rest); [|exact Erest].
      intros pre g' post o' Hr Ho'.
      apply (Hg (T "[[" ++ g ++ T "]]" ++ pre) g' post o'); [|done].
      rewrite Hs, Hr. by rewrite <- !app_assoc. }
    by rewrite Hs, <- !app_assoc.
  - destruct (re_sub wiki_link_matcher repl fuel (Some c) s)
      as [rest|e'] eqn:Erest; [|done].
    rewrite bind_Ok in H. injection H as <-. f_equal.
    apply (IH (Some c) s rest); [|done].
    intros pre g post o Hr Ho. apply (Hg (c :: pre) g post o); [|done].
    by rewrite Hr.
Qed.

(** X17.  In a note none of whose references names a note of the map,
    [replace_wiki_links] changes no reference: what it writes, when it
    returns, is the note with only its image embeds rewritten. *)
Theorem replace_wiki_links_ghost_note (title2id : gmap text text)
    (zettlr : bool) (content out : text) :
  ghost_note title2id content ->
  replace_wiki_links title2id zettlr content = Ok out ->
  out = replace_images content.
Proof.
  unfold replace_wiki_links, sub_wiki_links. intros Hghost H.
  destruct (re_sub wiki_link_matcher (replace_wiki_link title2id zettlr)
              (length content) None content) as [out1|e] eqn:E; [|done].
  rewrite bind_Ok in H. injection H as <-. f_equal.
  apply (re_sub_wiki_same _ _ _ _ _) in E; [done|].
  intros pre g post o Hc Ho.
  by apply (replace_wiki_link_ghost title2id zettlr g o (Hghost pre g post Hc)).
Qed.

Lemma is_substring_intro (needle a b : text) :
  is_substring needle (a ++ needle ++ b) = true.
Proof.
  induction a as [|c a IH].
  - destruct (needle ++ b) as [|c s] eqn:E; cbn [app is_substring];
      rewrite <- E, prefix_of_app; done.
  - change ((c :: a) ++ needle ++ b) with (c :: (a ++ needle ++ b)).
    cbn [is_substring]. rewrite IH.
    by destruct (prefix_of needle (c :: a ++ needle ++ b)).
Qed.

Lemma link_title_prefix (link_text : text) :
  exists rest, link_text = link_title link_text ++ rest.
Proof.
  unfold link_title. induction link_text as [|c s [rest IH]]; [by exists []|].
  cbn [split_on]. destruct (chr_eqb c "|"%char).
  - by exists (c :: s).
  - destruct (split_on "|"%char s) as [|p ps]; cbn [hd] in *.
    + by exists s.
    + exists rest. simpl. by f_equal.
Qed.

(** A note is such a note when no title of the map stands after a pair of
    opening brackets in it. *)
Lemma ghost_note_intro (title2id : gmap text text) (content : text) :
  (forall title, is_Some (title2id !! title) ->
     is_substring (T "[[" ++ title) content = false) ->
  ghost_note title2id content.
Proof.
  intros H pre link_text post ->.
  destruct (title2id !! link_title link_text) as [id|] eqn:E; [|done].
  destruct (link_title_prefix link_text) as [rest Hrest].
  specialize (H (link_title link_text) (mk_is_Some _ _ E)).
  remember (link_title link_text) as title eqn:Ht. clear Ht E.
  subst link_text.
  assert (pre ++ T "[[" ++ (title ++ rest) ++ T "]]" ++ post
          = pre ++ (T "[[" ++ title) ++ (rest ++ T "]]" ++ post)) as Heq
    by (by rewrite <- !app_assoc).
  rewrite Heq in H. by rewrite is_substring_intro in H.
Qed.

Lemma replace_wiki_links_ghost_note_witness :
  T "see [[Beta|b]] and ![](p.png)"
  = replace_images (T "see [[Beta|b]] and ![[p.png]]").
Proof.
  apply (replace_wiki_links_ghost_note alpha_map false
           (T "see [[Beta|b]] and ![[p.png]]")
           (T "see [[Beta|b]] and ![](p.png)")).
  - apply ghost_note_intro. intros title [id Hid]. unfold alpha_map in Hid.
    apply lookup_singleton_Some in Hid as [<- _]. vm_compute. reflexivity.
  - vm_compute. reflexivity.
Defined.

(** ** Typed links *)

Lemma typed_dest_lazy_unfold (s : text) :
  typed_dest_lazy s
  = match prefix_of (T "]]") s with
    | Some r => Some ([], r)
    | None =>
        match s with
        | [] => None
        | c :: s' =>
            if is_nl c then None
            else match typed_dest_lazy s' with
                 | Some (g, r) => Some (c :: g, r)
                 | None => None
                 end
        end
    end.
Proof. by destruct s. Qed.

Lemma typed_prefix_lazy_unfold (s : text) :
  typed_prefix_lazy s
  = match r ← prefix_of (T " [[") s; typed_dest_lazy r with
    | Some (d, r) => Some (([], d), r)
    | None =>
        match s with
        | [] => None
        | c :: s' =>
            if is_nl c then None
            else match typed_prefix_lazy s' with
                 | Some ((p, d), r) => Some ((c :: p, d), r)
                 | None => None
                 end
        end
    end.
Proof. by destruct s. Qed.

Lemma typed_dest_lazy_Some (s d r : text) :
  typed_dest_lazy s = Some (d, r) -> s = d ++ T "]]" ++ r.
Proof.
  revert d r. induction s as [|c s IH]; intros d r;
    rewrite typed_dest_lazy_unfold.
  - by destruct (prefix_of (T "]]") []) eqn:E.
  - destruct (prefix_of (T "]]") (c :: s)) as [r'|] eqn:E.
    + intros [= <- <-]. by apply prefix_of_Some in E.
    + destruct (is_nl c); [done|].
      destruct (typed_dest_lazy s) as [[g r']|]; [|done].
      intros [= <- <-]. by rewrite (IH g r' eq_refl).
Qed.

Lemma typed_prefix_lazy_Some (s p d r : text) :
  typed_prefix_lazy s = Some ((p, d), r) ->
  s = p ++ T " [[" ++ d ++ T "]]" ++ r.
Proof.
  revert p d r. induction s as [|c s IH]; intros p d r;
    rewrite typed_prefix_lazy_unfold.
  - by destruct (prefix_of (T " [[") []) eqn:E.
  - destruct (prefix_of (T " [[") (c :: s)) as [r'|] eqn:E;
      cbn [mbind option_bind].
    + destruct (typed_dest_lazy r') as [[d' r'']|] eqn:Ed.
      * intros [= <- <- <-]. apply prefix_of_Some in E.
        apply typed_dest_lazy_Some in Ed. by rewrite E, Ed.
      * destruct (is_nl c); [done|].
        destruct (typed_prefix_lazy s) as [[[p' d'] r'']|]; [|done].
        intros [= <- <- <-]. by rewrite (IH p' d' r'' eq_refl).
    + destruct (is_nl c); [done|].
      destruct (typed_prefix_lazy s) as [[[p' d'] r'']|]; [|done].
      intros [= <- <- <-]. by rewrite (IH p' d' r'' eq_refl).
Qed.

Lemma typed_link_matcher_Some (prev : option ascii) (s p d r : text) :
  typed_link_matcher prev s = Some ((p, d), r) ->
  s = typed_item p d ++ r.
Proof.
  unfold typed_link_matcher, typed_item.
  destruct (prefix_of (T "- ") s) as [s'|] eqn:E; [|done].
  cbn [mbind option_bind]. intros H.
  apply prefix_of_Some in E. apply typed_prefix_lazy_Some in H.
  rewrite E, H. by rewrite <- !app_assoc.
Qed.

Lemma typed_link_matcher_shrinks : shrinking typed_link_matcher.
Proof.
  intros prev s [p d] r H. apply typed_link_matcher_Some in H as ->.
  unfold typed_item. rewrite !length_app. simpl. lia.
Qed.

(** The destination ends at the first pair of closing brackets. *)
Lemma typed_dest_lazy_exact (d r : text) :
  dest_chars d = true -> typed_dest_lazy (d ++ T "]]" ++ r) = Some (d, r).
Proof.
  intros Hd. induction d as [|c d IH].
  - cbn [app]. rewrite typed_dest_lazy_unfold.
    by rewrite (prefix_of_app (T "]]") r).
  - cbn [dest_chars forallb] in Hd. apply andb_prop in Hd as [Hc Hd].
    apply negb_true_iff, orb_false_iff in Hc as [Hnl Hbr].
    change ((c :: d) ++ T "]]" ++ r) with (c :: (d ++ T "]]" ++ r)).
    rewrite typed_dest_lazy_unfold.
    assert (prefix_of (T "]]") (c :: d ++ T "]]" ++ r) = None) as ->.
    { cbn [T String.list_ascii_of_string prefix_of]. by rewrite Hbr. }
    by rewrite Hnl, (IH Hd).
Qed.

(** The prefix ends at the first space that a pair of opening brackets
    follows. *)
Lemma typed_prefix_lazy_exact (p d r : text) :
  prefix_chars p = true -> dest_chars d = true ->
  typed_prefix_lazy (p ++ T " [[" ++ d ++ T "]]" ++ r) = Some ((p, d), r).
Proof.
  intros Hp Hd. induction p as [|c p IH].
  - cbn [app]. rewrite typed_prefix_lazy_unfold.
    rewrite (prefix_of_app (T " [[") (d ++ T "]]" ++ r)).
    cbn [mbind option_bind]. by rewrite (typed_dest_lazy_exact d r Hd).
  - cbn [prefix_chars forallb] in Hp. apply andb_prop in Hp as [Hc Hp].
    apply negb_true_iff, orb_false_iff in Hc as [Hnl Hbr].
    change ((c :: p) ++ T " [[" ++ d ++ T "]]" ++ r)
      with (c :: (p ++ T " [[" ++ d ++ T "]]" ++ r)).
    rewrite typed_prefix_lazy_unfold.
    assert (prefix_of (T " [[") (c :: p ++ T " [[" ++ d ++ T "]]" ++ r) = None)
      as ->.
    { cbn [T String.list_ascii_of_string prefix_of].
      destruct (chr_eqb " "%char c); [|done].
      destruct p as [|x p]; [done|].
      cbn [prefix_chars forallb] in Hp. apply andb_prop in Hp as [Hx _].
      apply negb_true_iff, orb_false_iff in Hx as [_ Hx].
      cbn [app]. by rewrite Hx. }
    cbn [mbind option_bind]. by rewrite Hnl, (IH Hp).
Qed.

Lemma typed_link_matcher_item (prev : option ascii) (p d r : text) :
  prefix_chars p = true -> dest_chars d = true ->
  typed_link_matcher prev (typed_item p d ++ r) = Some ((p, d), r).
Proof.
  intros Hp Hd. unfold typed_link_matcher, typed_item.
  rewrite <- !app_assoc. rewrite prefix_of_app. cbn [mbind option_bind].
  by apply typed_prefix_lazy_exact.
Qed.

Lemma typed_link_matcher_other (prev : option ascii) (c : ascii) (s : text) :
  chr_eqb "-"%char c = false -> typed_link_matcher prev (c :: s) = None.
Proof.
  intros Hc. unfold typed_link_matcher.
  cbn [T String.list_ascii_of_string prefix_of]. by rewrite Hc.
Qed.

Section TypedScan.
Variable repl : text * text -> result text.

(** The pattern does not look behind. *)
Lemma re_sub_typed_prev (fuel : nat) (p q : option ascii) (s : text) :
  re_sub typed_link_matcher repl fuel p s
  = re_sub typed_link_matcher repl fuel q s.
Proof. by destruct fuel, s. Qed.

(** The scan passes over a text without hyphen. *)
Lemma re_sub_typed_skip (before s : text) (fuel : nat)
    (prev : option ascii) :
  hyphen_free before = true ->
  length (before ++ s) <= fuel ->
  re_sub typed_link_matcher repl fuel prev (before ++ s)
  = rest ← re_sub typed_link_matcher repl (fuel - length before) prev s;
    Ok (before ++ rest).
Proof.
  revert fuel prev. induction before as [|c b IH]; intros fuel prev Hb Hf.
  - cbn [app length]. rewrite Nat.sub_0_r.
    by destruct (re_sub typed_link_matcher repl fuel prev s).
  - cbn [hyphen_free forallb] in Hb. apply andb_prop in Hb as [Hc Hb].
    apply negb_true_iff in Hc.
    change ((c :: b) ++ s) with (c :: (b ++ s)) in *.
    destruct fuel as [|fuel]; [simpl in Hf; lia|].
    cbn [re_sub length Nat.sub]. rewrite (typed_link_matcher_other _ _ _ Hc).
    rewrite (IH fuel (Some c) Hb); [|simpl in Hf; lia].
    rewrite (re_sub_typed_prev _ (Some c) prev).
    by destruct (re_sub typed_link_matcher repl (fuel - length b) prev s).
Qed.
End TypedScan.

Lemma Ok_same {A : Type} (a b : A) : Ok a = Ok b -> a = b.
Proof. by intros [= ->]. Qed.

Lemma sub_typed_links_Ok (s : text) :
  re_sub typed_link_matcher
    (fun g => Ok (T "[[" ++ fst g ++ T ":" ++ snd g ++ T "]]"))
    (length s) None s
  = Ok (sub_typed_links s).
Proof.
  unfold sub_typed_links.
  destruct (re_sub_total typed_link_matcher typed_link_matcher_shrinks
              (fun g => Ok (T "[[" ++ fst g ++ T ":" ++ snd g ++ T "]]"))
              (length s) None s) as [out ->]; [by eexists | done | done].
Qed.

Lemma sub_typed_links_item (before p d after : text) :
  hyphen_free before = true ->
  prefix_chars p = true ->
  dest_chars d = true ->
  sub_typed_links (before ++ typed_item p d ++ after)
  = before ++ typed_link p d ++ sub_typed_links after.
Proof.
  intros Hb Hp Hd.
  pose proof (sub_typed_links_Ok (before ++ typed_item p d ++ after)) as H.
  rewrite re_sub_typed_skip in H; [|done|done].
  destruct (typed_item p d ++ after) as [|c s] eqn:Es; [done|].
  assert (length (before ++ c :: s) - length before = S (length s)) as Hl.
  { rewrite length_app. simpl. lia. }
  rewrite Hl in H. cbn [re_sub] in H. rewrite <- Es in H.
  rewrite (typed_link_matcher_item None p d after Hp Hd) in H.
  rewrite bind_Ok in H. cbn [fst snd] in H.
  rewrite (re_sub_typed_prev _ _ _ None) in H.
  rewrite (re_sub_fuel typed_link_matcher typed_link_matcher_shrinks _
             (length s) (length after)) in H.
  - rewrite sub_typed_links_Ok, !bind_Ok in H. rewrite <- Es.
    apply Ok_same in H. rewrite <- H.
    unfold typed_link. by rewrite <- !app_assoc.
  - assert (length (typed_item p d ++ after) = S (length s)) as Hl'
      by (by rewrite Es).
    rewrite length_app in Hl'. unfold typed_item in Hl'.
    rewrite !length_app in Hl'. simpl in Hl'. lia.
  - done.
Qed.

(** X18.  Without a section to look in, [transform_typed_links] recodes
    an item of a list that holds a prefix and a reference: after a text
    without hyphen the item becomes the reference with the prefix and a
    colon before the destination, and the rest of the note is recoded in
    the same way. *)
Theorem typed_item_recoded (before prefix dest after : text) :
  hyphen_free before = true ->
  prefix_chars prefix = true ->
  dest_chars dest = true ->
  transform_typed_links None (before ++ typed_item prefix dest ++ after)
  = before ++ typed_link prefix dest ++ transform_typed_links None after.
Proof. apply sub_typed_links_item. Qed.

Lemma typed_item_recoded_witness :
  transform_typed_links None
    (T "Links: " ++ typed_item (T "causes") (T "Fire") ++ nl :: T "end")
  = T "Links: " ++ typed_link (T "causes") (T "Fire")
      ++ transform_typed_links None (nl :: T "end").
Proof.
  apply (typed_item_recoded (T "Links: ") (T "causes") (T "Fire")
           (nl :: T "end")); reflexivity.
Defined.

(** The heading where the pattern looks for it. *)
Lemma section_from_prefix (heading s : text) :
  prefix_of heading s = None -> section_from heading s = None.
Proof. unfold section_from. by intros ->. Qed.

Lemma is_substring_false (needle s : text) :
  is_substring needle s = false ->
  prefix_of needle s = None
  /\ match s with [] => True | _ :: s' => is_substring needle s' = false end.
Proof.
  destruct s as [|c s]; cbn [is_substring].
  - by destruct (prefix_of needle []).
  - by destruct (prefix_of needle (c :: s)).
Qed.

Lemma section_search_absent (heading : text) (prev : option ascii)
    (s : text) :
  is_substring heading s = false -> section_search heading prev s = None.
Proof.
  revert prev. induction s as [|c s IH]; intros prev H;
    apply is_substring_false in H as [Hp Hs].
  - cbn [section_search]. unfold section_matcher.
    rewrite (section_from_prefix _ _ Hp). by destruct prev.
  - cbn [section_search]. unfold section_matcher.
    rewrite (section_from_prefix _ _ Hp).
    pose proof Hs as Hs'. apply is_substring_false in Hs' as [Hp' _].
    rewrite (section_from_prefix _ _ Hp'), (IH (Some c) Hs).
    by destruct prev, (is_nl c).
Qed.



(** ** One note through both passes *)

Lemma typed_link_matcher_spaced (prev : option ascii) (s : text)
    (m : (text * text) * text) :
  typed_link_matcher prev s = Some m -> is_substring (T " [[") s = true.
Proof.
  destruct m as [[p d] r]. intros H. apply typed_link_matcher_Some in H as ->.
  unfold typed_item.
  assert ((T "- " ++ p ++ T " [[" ++ d ++ T "]]") ++ r
          = (T "- " ++ p) ++ T " [[" ++ (d ++ T "]]" ++ r)) as ->
    by (by rewrite <- !app_assoc).
  apply is_substring_intro.
Qed.

(** The scan for typed links passes over a text in which no space stands
    before a pair of opening brackets. *)
Lemma re_sub_typed_free (repl : text * text -> result text) (s : text)
    (fuel : nat) (prev : option ascii) :
  is_substring (T " [[") s = false -> length s <= fuel ->
  re_sub typed_link_matcher repl fuel prev s = Ok s.
Proof.
  revert fuel prev. induction s as [|c s IH]; intros [|fuel] prev Hs Hf;
    simpl in Hf; try done; try lia.
  cbn [re_sub].
  destruct (typed_link_matcher prev (c :: s)) as [m|] eqn:E.
  { apply typed_link_matcher_spaced in E. congruence. }
  apply is_substring_false in Hs as [_ Hs].
  rewrite (IH fuel (Some c) Hs); [done | lia].
Qed.

Lemma sub_typed_links_free (s : text) :
  is_substring (T " [[") s = false -> sub_typed_links s = s.
Proof.
  intros H. unfold sub_typed_links. by rewrite re_sub_typed_free.
Qed.

Lemma quiet_spaced (s : text) :
  quiet s = true -> is_substring (T " [[") s = false.
Proof.
  induction s as [|c s IH]; intros Hq; [done|].
  cbn [is_substring]. rewrite (IH (quiet_cons c s Hq)).
  destruct (prefix_of (T " [[") (c :: s)) as [r|] eqn:E; [|done].
  apply prefix_of_Some in E. injection E as -> ->.
  apply quiet_cons in Hq. by simpl in Hq.
Qed.

(** X20.  A note without a pair of opening brackets goes through
    [replace_wiki_links], and through [transform_typed_links] when it is
    asked for without a section, and comes out as it was. *)
Theorem rewrite_note_quiet (title2id : gmap text text)
    (zettlr typedlinks : bool) (content : text) :
  quiet content = true ->
  rewrite_note title2id zettlr typedlinks None content = Ok content.
Proof.
  intros Hq. unfold rewrite_note, replace_wiki_links, sub_wiki_links.
  rewrite re_sub_wiki_quiet_all; [|done|done]. rewrite !bind_Ok.
  rewrite (replace_images_no_embed content (has_embed_quiet content Hq)).
  destruct typedlinks; [|done]. cbn [transform_typed_links].
  by rewrite (sub_typed_links_free content (quiet_spaced content Hq)).
Qed.

Lemma rewrite_note_quiet_witness :
  rewrite_note alpha_map false true None (T "a [link](http://x) - b")
  = Ok (T "a [link](http://x) - b").
Proof.
  apply (rewrite_note_quiet alpha_map false true (T "a [link](http://x) - b")).
  reflexivity.
Defined.

Lemma open_free_quiet_snoc (u : text) (c : ascii) :
  open_free u = true -> quiet (u ++ [c]) = true.
Proof.
  induction u as [|x u IH]; intros Hu.
  - simpl. by rewrite andb_false_r.
  - cbn [open_free forallb] in Hu. apply andb_prop in Hu as [Hx Hu].
    apply negb_true_iff in Hx.
    change ((x :: u) ++ [c]) with (x :: (u ++ [c])).
    cbn [quiet]. rewrite (IH Hu), andb_true_r.
    by rewrite chr_eqb_sym, Hx.
Qed.

(** A text without opening bracket that does not end with an exclamation
    mark starts no embed with what follows it. *)
Lemma has_embed_skip (u s : text) :
  open_free u = true -> last u <> Some "!"%char ->
  has_embed (u ++ s) = has_embed s.
Proof.
  induction u as [|c u IH]; intros Hu Hl; [done|].
  cbn [open_free forallb] in Hu. apply andb_prop in Hu as [_ Hu].
  change ((c :: u) ++ s) with (c :: (u ++ s)).
  rewrite has_embed_cons.
  assert (prefix_of (T "![[") (c :: u ++ s) = None) as ->.
  { cbn [T String.list_ascii_of_string prefix_of].
    destruct (chr_eqb "!"%char c) eqn:Ec; [|done].
    apply chr_eqb_eq in Ec. subst c.
    destruct u as [|x u]; [done|].
    cbn [open_free forallb] in Hu. apply andb_prop in Hu as [Hx _].
    apply negb_true_iff in Hx. cbn [app]. by rewrite Hx. }
  cbn [orb]. rewrite bool_decide_eq_false_2 by (by intros [? ?]).
  apply IH; [done|]. destruct u as [|x u]; [done|].
  by rewrite last_cons_cons in Hl.
Qed.

(** The same for a space before a pair of opening brackets. *)
Lemma spaced_skip (u s : text) :
  open_free u = true ->
  last u <> Some " "%char \/ prefix_of (T "[[") s = None ->
  is_substring (T " [[") (u ++ s) = is_substring (T " [[") s.
Proof.
  induction u as [|c u IH]; intros Hu Hl; [done|].
  cbn [open_free forallb] in Hu. apply andb_prop in Hu as [_ Hu].
  change ((c :: u) ++ s) with (c :: (u ++ s)).
  cbn [is_substring].
  assert (prefix_of (T " [[") (c :: u ++ s) = None) as ->.
  { cbn [T String.list_ascii_of_string prefix_of].
    destruct (chr_eqb " "%char c) eqn:Ec; [|done].
    apply chr_eqb_eq in Ec. subst c.
    destruct u as [|x u].
    - cbn [app]. destruct Hl as [Hl|Hl]; [done|].
      cbn [T String.list_ascii_of_string prefix_of] in Hl.
      destruct s as [|y s]; [done|].
      destruct (chr_eqb "["%char y); [|done].
      destruct s as [|y' s]; [done|].
      by destruct (chr_eqb "["%char y').
    - cbn [open_free forallb] in Hu. apply andb_prop in Hu as [Hx _].
      apply negb_true_iff in Hx. cbn [app]. by rewrite Hx. }
  apply IH; [done|]. destruct Hl as [Hl|Hl]; [|by right].
  destruct u as [|x u]; [|left; by rewrite last_cons_cons in Hl].
  left. done.
Qed.

Lemma spaced_other (c : ascii) (s : text) :
  chr_eqb " "%char c = false ->
  is_substring (T " [[") (c :: s) = is_substring (T " [[") s.
Proof.
  intros Hc. cbn [is_substring T String.list_ascii_of_string prefix_of].
  by rewrite Hc.
Qed.

Lemma prefix_chars_open_free (s : text) :
  prefix_chars s = true -> open_free s = true.
Proof.
  unfold prefix_chars, open_free. induction s as [|c s IH]; simpl; [done|].
  intros [Hc Hs]%andb_prop. rewrite (IH Hs), andb_true_r.
  apply negb_true_iff, orb_false_iff in Hc as [_ Hc]. by rewrite Hc.
Qed.

Lemma label_chars_dest_chars (s : text) :
  label_chars s = true -> dest_chars s = true.
Proof.
  unfold label_chars, dest_chars. induction s as [|c s IH]; simpl; [done|].
  intros [Hc Hs]%andb_prop. rewrite (IH Hs), andb_true_r.
  apply negb_true_iff in Hc.
  apply orb_false_iff in Hc as [Hc _]. apply orb_false_iff in Hc as [Hc _].
  apply orb_false_iff in Hc as [Hnl Hbr].
  by rewrite Hnl, chr_eqb_sym, Hbr.
Qed.

Lemma last_app_end (a b : text) (c : ascii) :
  last b = Some c -> last (a ++ b) = Some c.
Proof. intros H. by rewrite last_app, H. Qed.

Lemma dest_chars_app (a b : text) :
  dest_chars (a ++ b) = dest_chars a && dest_chars b.
Proof. apply forallb_app. Qed.

Section TypedReference.
Variable title2id : gmap text text.
Variables before prefix title id after : text.
Hypothesis before_hyphens : hyphen_free before = true.
Hypothesis before_open : open_free before = true.
Hypothesis prefix_ok : prefix_chars prefix = true.
Hypothesis title_ok : label_chars title = true.
Hypothesis title_some : title <> [].
Hypothesis title_known : title2id !! title = Some id.
Hypothesis id_ok : label_chars id = true.
Hypothesis after_quiet : quiet after = true.
Hypothesis after_ok : after_reference after = true.

(** The text up to the reference. *)
Lemma typed_reference_pre :
  open_free (before ++ T "- " ++ prefix ++ T " ") = true
  /\ last (before ++ T "- " ++ prefix ++ T " ") = Some " "%char.
Proof.
  split.
  - rewrite !open_free_app, before_open, (prefix_chars_open_free _ prefix_ok).
    done.
  - assert (before ++ T "- " ++ prefix ++ T " "
            = (before ++ T "- " ++ prefix) ++ [" "%char]) as ->
      by (by rewrite <- !app_assoc).
    apply last_snoc.
Qed.

Lemma typed_reference_before :
  before_reference (before ++ T "- " ++ prefix ++ T " ") = true.
Proof.
  destruct typed_reference_pre as [Ho Hl]. unfold before_reference.
  apply andb_true_iff. split.
  - apply (open_free_quiet_snoc _ "["%char Ho).
  - by rewrite Hl.
Qed.

(** What [replace_wiki_links] makes of a typed link to a note of the
    map. *)
Lemma typed_reference_first_pass (zettlr : bool) :
  replace_wiki_links title2id zettlr
    (before ++ typed_item prefix title ++ after)
  = Ok (before ++ T "- " ++ prefix ++ T " "
          ++ rewritten_reference zettlr id title ++ after).
Proof.
  destruct typed_reference_pre as [Ho Hl].
  pose proof typed_reference_before as Hb.
  assert (sub_wiki_links title2id zettlr
            (before ++ typed_item prefix title ++ after)
          = Ok ((before ++ T "- " ++ prefix ++ T " ")
                  ++ rewritten_reference zettlr id title ++ after)) as H1.
  { assert (before ++ typed_item prefix title ++ after
            = (before ++ T "- " ++ prefix ++ T " ")
                ++ T "[[" ++ title ++ T "]]" ++ after) as ->
      by (unfold typed_item; by rewrite <- !app_assoc).
    rewrite sub_wiki_links_reference;
      [|done|done|by apply link_chars_weaken, label_chars_link_chars|done].
    pose proof (replace_wiki_link_reference title2id zettlr title None
                  (label_chars_link_chars _ title_ok) eq_refl) as Hr.
    cbn [reference_text reference_label] in Hr.
    rewrite Hr, title_known, bind_Ok. unfold sub_wiki_links.
    by rewrite re_sub_wiki_quiet_all. }
  unfold replace_wiki_links. rewrite H1, bind_Ok. f_equal.
  rewrite <- !app_assoc. rewrite <- !app_assoc in H1.
  apply replace_images_no_embed.
  assert (before ++ T "- " ++ prefix ++ T " "
            ++ rewritten_reference zettlr id title ++ after
          = (before ++ T "- " ++ prefix ++ T " ")
              ++ rewritten_reference zettlr id title ++ after) as ->
    by (by rewrite <- !app_assoc).
  rewrite has_embed_skip; [|done|by rewrite Hl].
  pose proof (label_chars_open_free _ title_ok) as Hto.
  pose proof (label_chars_open_free _ id_ok) as Hio.
  unfold rewritten_reference. destruct zettlr.
  - assert ((T "[" ++ title ++ T "]([[" ++ id ++ T "]])") ++ after
            = "["%char :: (title ++ T "](")
                ++ "["%char :: "["%char :: (id ++ T "]])") ++ after) as ->
      by (by rewrite <- !app_assoc).
    rewrite has_embed_other by done.
    rewrite has_embed_skip;
      [|by rewrite open_free_app, Hto
       |by rewrite (last_app_end title (T "](") "("%char eq_refl)].
    rewrite !has_embed_other by done.
    rewrite has_embed_skip;
      [|by rewrite open_free_app, Hio
       |by rewrite (last_app_end id (T "]])") ")"%char eq_refl)].
    by apply has_embed_quiet.
  - assert ((T "[[" ++ id ++ T "|" ++ title ++ T "]]") ++ after
            = "["%char :: "["%char :: (id ++ T "|" ++ title ++ T "]]")
                ++ after) as ->
      by (by rewrite <- !app_assoc).
    rewrite !has_embed_other by done.
    rewrite has_embed_skip.
    + by apply has_embed_quiet.
    + by rewrite !open_free_app, Hio, Hto.
    + assert (last (id ++ T "|" ++ title ++ T "]]") = Some "]"%char) as ->;
        [|done].
      by apply last_app_end, last_app_end, last_app_end.
Qed.

(** X21.  In the convention of Cosma the two passes turn an item of a
    list that holds a prefix and a reference to a note of the map into one
    reference that holds the prefix, the identifier and the title. *)
Theorem typed_reference_recoded :
  rewrite_note title2id false true None
    (before ++ typed_item prefix title ++ after)
  = Ok (before ++ typed_link prefix (id ++ T "|" ++ title) ++ after).
Proof.
  unfold rewrite_note. rewrite typed_reference_first_pass, bind_Ok.
  f_equal. cbn [transform_typed_links rewritten_reference].
  assert (before ++ T "- " ++ prefix ++ T " "
            ++ (T "[[" ++ id ++ T "|" ++ title ++ T "]]") ++ after
          = before ++ typed_item prefix (id ++ T "|" ++ title) ++ after)
    as -> by (unfold typed_item; by rewrite <- !app_assoc).
  rewrite sub_typed_links_item; [|done|done|].
  - by rewrite (sub_typed_links_free after (quiet_spaced after after_quiet)).
  - rewrite !dest_chars_app.
    by rewrite (label_chars_dest_chars _ id_ok),
      (label_chars_dest_chars _ title_ok).
Qed.

(** X22.  In the convention of Zettlr the same item is not recoded: the
    reference is rewritten, and after it the pattern of the typed links
    finds nothing, so that the item keeps its hyphen and its prefix. *)
Theorem typed_reference_zettlr :
  rewrite_note title2id true true None
    (before ++ typed_item prefix title ++ after)
  = Ok (before ++ T "- " ++ prefix ++ T " [" ++ title ++ T "]([[" ++ id
          ++ T "]])" ++ after).
Proof.
  unfold rewrite_note. rewrite typed_reference_first_pass, bind_Ok.
  cbn [transform_typed_links rewritten_reference].
  destruct typed_reference_pre as [Ho Hl].
  pose proof (label_chars_open_free _ title_ok) as Hto.
  pose proof (label_chars_open_free _ id_ok) as Hio.
  rewrite sub_typed_links_free; [f_equal; by rewrite <- !app_assoc|].
  assert (before ++ T "- " ++ prefix ++ T " "
            ++ (T "[" ++ title ++ T "]([[" ++ id ++ T "]])") ++ after
          = (before ++ T "- " ++ prefix ++ T " ")
              ++ "["%char :: (title ++ T "](")
              ++ "["%char :: "["%char :: (id ++ T "]])") ++ after) as ->
    by (by rewrite <- !app_assoc).
  rewrite spaced_skip; [|done|].
  - rewrite spaced_other by done.
    rewrite spaced_skip;
      [|by rewrite open_free_app, Hto
       |left; by rewrite (last_app_end title (T "](") "("%char eq_refl)].
    rewrite !spaced_other by done.
    rewrite spaced_skip;
      [|by rewrite open_free_app, Hio
       |left; by rewrite (last_app_end id (T "]])") ")"%char eq_refl)].
    by apply quiet_spaced.
  - right. destruct title as [|c t]; [done|].
    cbn [label_chars forallb] in title_ok.
    apply andb_prop in title_ok as [Hc _].
    apply negb_true_iff in Hc. apply orb_false_iff in Hc as [_ Hc].
    cbn [T String.list_ascii_of_string prefix_of app].
    rewrite chr_eqb_refl. by rewrite Hc.
Qed.
End TypedReference.

Lemma typed_reference_recoded_witness :
  rewrite_note alpha_map false true None
    (T "Links: " ++ typed_item (T "extends") (T "Alpha") ++ nl :: T "end")
  = Ok (T "Links: "
          ++ typed_link (T "extends") (T "20240101000001" ++ T "|" ++ T "Alpha")
          ++ nl :: T "end").
Proof.
  apply (typed_reference_recoded alpha_map (T "Links: ") (T "extends")
           (T "Alpha") (T "20240101000001") (nl :: T "end"));
    try reflexivity.
  discriminate.
Defined.

Lemma typed_reference_zettlr_witness :
  rewrite_note alpha_map true true None
    (T "Links: " ++ typed_item (T "extends") (T "Alpha") ++ nl :: T "end")
  = Ok (T "Links: " ++ T "- " ++ T "extends" ++ T " [" ++ T "Alpha"
          ++ T "]([[" ++ T "20240101000001" ++ T "]])" ++ nl :: T "end").
Proof.
  apply (typed_reference_zettlr alpha_map (T "Links: ") (T "extends")
           (T "Alpha") (T "20240101000001") (nl :: T "end"));
    try reflexivity.
  discriminate.
Defined.

(** ** Folder paths as types *)

Lemma split_on_cons (sep : ascii) (s : text) :
  exists p ps, split_on sep s = p :: ps.
Proof.
  destruct s as [|c s]; [by eexists _, _|]. cbn [split_on].
  destruct (chr_eqb c sep); [by eexists _, _|].
  destruct (split_on sep s); by eexists _, _.
Qed.

Lemma type_part_cons (c : ascii) (part : text) :
  type_part (c :: part) = type_chr c :: type_part part.
Proof. reflexivity. Qed.

Lemma join_type_parts (folder_path : text) :
  join_with "/"%char (map type_part (split_on "/"%char folder_path))
  = map type_chr folder_path.
Proof.
  induction folder_path as [|c s IH]; [done|].
  cbn [split_on]. destruct (chr_eqb c "/"%char) eqn:Ec.
  - apply chr_eqb_eq in Ec. subst c.
    destruct (split_on_cons "/"%char s) as (p & ps & Hs).
    rewrite Hs in *. cbn [map join_with] in *. by rewrite IH.
  - destruct (split_on_cons "/"%char s) as (p & ps & Hs).
    rewrite Hs in *. cbn [map] in *. rewrite type_part_cons.
    destruct ps as [|q ps]; cbn [map join_with] in *.
    + by rewrite IH.
    + by rewrite <- IH.
Qed.

Lemma filter_all {A : Type} (f : A -> bool) (l : list A) :
  forallb f l = true -> List.filter f l = l.
Proof.
  induction l as [|x l IH]; [done|]. cbn [forallb List.filter].
  intros [Hx Hl]%andb_prop. by rewrite Hx, (IH Hl).
Qed.

(** A path without an empty part has no root. *)
Lemma normal_path_root (folder_path : text) :
  normal_path folder_path = true -> path_root folder_path = [].
Proof.
  destruct folder_path as [|a rest]; [done|].
  unfold normal_path, path_root. cbn [split_on].
  destruct (chr_eqb a "/"%char); [|done].
  cbn [forallb]. by rewrite text_eqb_refl.
Qed.

(** X23.  The type that [folder_path_to_type] gives to a relative path
    is the path read character by character: every letter in lower case,
    a hyphen for every space, every other character, the slashes also, as
    it is and where it is. *)
Theorem folder_path_to_type_chars (folder_path : text) :
  normal_path folder_path = true ->
  folder_path_to_type folder_path = map type_chr folder_path.
Proof.
  intros Hn. unfold folder_path_to_type, path_parts.
  rewrite (normal_path_root folder_path Hn), (filter_all _ _ Hn).
  apply join_type_parts.
Qed.

Lemma folder_path_to_type_chars_witness :
  folder_path_to_type (T "Characters/Player Characters")
  = map type_chr (T "Characters/Player Characters").
Proof.
  apply (folder_path_to_type_chars (T "Characters/Player Characters")).
  reflexivity.
Defined.

(** ** The type line *)

Lemma open_front_match_document (front_matter body : text) :
  open_front_match (document front_matter body) = true.
Proof.
  unfold open_front_match, document. by rewrite prefix_of_app.
Qed.

Lemma line_no_closing (s : text) :
  forallb (fun c => negb (is_nl c)) s = true ->
  is_substring (nl :: T "---") s = false.
Proof.
  induction s as [|c s IH]; [done|].
  cbn [forallb]. intros [Hc Hs]%andb_prop. apply negb_true_iff in Hc.
  cbn [is_substring prefix_of]. unfold is_nl in Hc.
  rewrite (chr_eqb_sym nl c), Hc. by apply IH.
Qed.

(** X24.  A note that does not open with a line of three hyphens gets
    from [apply_folder2type] a front matter of its own: the line of the
    type is all that [parse_yaml_front_matter] then reads as front matter,
    and the note, without the whitespace it started with, is the body. *)
Theorem insert_type_bare (type_value content : text) :
  open_front_match content = false ->
  forallb (fun c => negb (is_nl c)) type_value = true ->
  front_matter_match (insert_type type_value content)
  = Some (T "type: " ++ type_value, lstrip content).
Proof.
  intros Hopen Hline. unfold insert_type. rewrite Hopen.
  change (T "---" ++ [nl] ++ T "type: " ++ type_value ++ [nl] ++ T "---"
            ++ [nl] ++ content)
    with (document (T "type: " ++ type_value) content).
  apply front_matter_match_document.
  cbn [T String.list_ascii_of_string app plain_front_matter].
  change (negb (isspace "t"%char)) with true. cbn [andb].
  apply negb_true_iff.
  apply (line_no_closing (T "type: " ++ type_value)).
  by rewrite forallb_app, Hline.
Qed.

Lemma insert_type_bare_witness :
  front_matter_match (insert_type (T "player-characters") (T "Fire burns."))
  = Some (T "type: " ++ T "player-characters", lstrip (T "Fire burns.")).
Proof.
  apply (insert_type_bare (T "player-characters") (T "Fire burns."));
    reflexivity.
Defined.

(** X25.  In a note with a front matter the line of the type becomes the
    first line of the front matter: [parse_yaml_front_matter] then reads
    the type, a newline and the front matter there was, and the same
    body. *)
Theorem insert_type_document (type_value front_matter body : text) :
  plain_front_matter (T "type: " ++ type_value ++ nl :: front_matter) = true ->
  front_matter_match (insert_type type_value (document front_matter body))
  = Some (T "type: " ++ type_value ++ nl :: front_matter, lstrip body).
Proof.
  intros Hplain. unfold insert_type.
  rewrite open_front_match_document. unfold document at 1.
  rewrite str_replace_first_head.
  assert ((T "---" ++ [nl] ++ T "type: " ++ type_value)
            ++ [nl] ++ front_matter ++ [nl] ++ T "---" ++ [nl] ++ body
          = document (T "type: " ++ type_value ++ nl :: front_matter) body)
    as -> by (unfold document; by rewrite <- !app_assoc).
  by apply front_matter_match_document.
Qed.

Lemma insert_type_document_witness :
  front_matter_match
    (insert_type (T "player-characters") (document (T "a: b") (T "Body")))
  = Some (T "type: " ++ T "player-characters" ++ nl :: T "a: b",
          lstrip (T "Body")).
Proof.
  apply (insert_type_document (T "player-characters") (T "a: b") (T "Body")).
  vm_compute. reflexivity.
Defined.

Section Folder2TypeFacts.
Variable safe_load : text -> result value.
Variable file_to_folder : gmap text text.

Lemma apply_folder2type_file_Ok (fs fs' : gmap text text) (file : text) :
  apply_folder2type_file safe_load file_to_folder fs file = Ok fs' ->
  match file_to_folder !! last_component [] file with
  | None => fs' = fs
  | Some folder =>
      exists content,
        fs !! file = Some content
        /\ fs' = <[file := insert_type (folder_path_to_type folder) content]> fs
  end.
Proof.
  unfold apply_folder2type_file.
  destruct (file_to_folder !! last_component [] file) as [folder|].
  - unfold read_file. destruct (fs !! file) as [content|]; [|done].
    rewrite bind_Ok.
    destruct (parse_yaml_front_matter safe_load content); [|done].
    rewrite bind_Ok. intros [= <-]. by exists content.
  - by intros [= <-].
Qed.

(** X26.  What [apply_folder2type] has done when it returns, for a list
    that names no file twice: a file of the list whose name has a folder
    in the map holds the text it held with the type of that folder added,
    and every other file holds what it held. *)
Theorem apply_folder2type_files (fs fs' : gmap text text)
    (files : list text) (file : text) :
  NoDup files ->
  apply_folder2type safe_load file_to_folder fs files = Ok fs' ->
  fs' !! file
  = match file_to_folder !! last_component [] file with
    | Some folder =>
        if bool_decide (file ∈ files)
        then insert_type (folder_path_to_type folder) <$> fs !! file
        else fs !! file
    | None => fs !! file
    end.
Proof.
  intros Hnd. revert fs. induction Hnd as [|f files Hf Hnd IH]; intros fs H.
  - injection H as <-. rewrite bool_decide_eq_false_2 by apply not_elem_of_nil.
    by destruct (file_to_folder !! last_component [] file).
  - cbn [apply_folder2type] in H.
    destruct (apply_folder2type_file safe_load file_to_folder fs f)
      as [fs1|e] eqn:E1; [|done].
    rewrite bind_Ok in H. rewrite (IH fs1 H).
    apply apply_folder2type_file_Ok in E1.
    destruct (decide (file = f)) as [->|Hne].
    + rewrite (bool_decide_eq_false_2 (f ∈ files)) by done.
      rewrite (bool_decide_eq_true_2 (f ∈ f :: files))
        by (apply elem_of_cons; by left).
      destruct (file_to_folder !! last_component [] f) as [folder|].
      * destruct E1 as (content & Hc & ->).
        by rewrite lookup_insert_eq, Hc.
      * by subst fs1.
    + assert (fs1 !! file = fs !! file) as ->.
      { destruct (file_to_folder !! last_component [] f) as [folder|].
        - destruct E1 as (content & Hc & ->). by rewrite lookup_insert_ne.
        - by subst fs1. }
      destruct (file_to_folder !! last_component [] file) as [folder|]; [|done].
      destruct (decide (file ∈ files)) as [Hin|Hin].
      * rewrite !bool_decide_eq_true_2; [done| |done].
        apply elem_of_cons. by right.
      * rewrite !bool_decide_eq_false_2; [done| |done].
        intros [?|?]%elem_of_cons; done.
Qed.
End Folder2TypeFacts.

Lemma apply_folder2type_files_witness :
  <[T "out/Fire.md" := insert_type (T "player-characters") (T "Fire burns.")]>
    vault_files !! T "out/Fire.md"
  = match vault_folders !! last_component [] (T "out/Fire.md") with
    | Some folder =>
        if bool_decide (T "out/Fire.md" ∈ [T "out/Fire.md"])
        then insert_type (folder_path_to_type folder)
               <$> vault_files !! T "out/Fire.md"
        else vault_files !! T "out/Fire.md"
    | None => vault_files !! T "out/Fire.md"
    end.
Proof.
  apply (apply_folder2type_files demo_load vault_folders vault_files
           (<[T "out/Fire.md" := insert_type (T "player-characters")
                                   (T "Fire burns.")]> vault_files)
           [T "out/Fire.md"] (T "out/Fire.md")).
  - apply NoDup_singleton.
  - vm_compute. reflexivity.
Defined.

(** ** New names *)

Lemma unaccent_clean (c : ascii) :
  clean_name (map (fun x => if chr_eqb x " "%char then "-"%char else x)
                  (unaccent c)) = true.
Proof. destruct c as [[] [] [] [] [] [] [] []]; vm_compute; reflexivity. Qed.

Lemma unaccent_fixed (c : ascii) :
  (nat_of_ascii c <? 128) && negb (chr_eqb c " "%char) = true ->
  map (fun x => if chr_eqb x " "%char then "-"%char else x) (unaccent c) = [c].
Proof.
  destruct c as [[] [] [] [] [] [] [] []]; intros H;
    first [ reflexivity | vm_compute in H; discriminate ].
Qed.

Lemma new_name_cons (c : ascii) (file : text) :
  new_name (c :: file)
  = map (fun x => if chr_eqb x " "%char then "-"%char else x) (unaccent c)
      ++ new_name file.
Proof. unfold new_name. cbn [map concat]. by rewrite map_app. Qed.

Lemma new_name_is_clean (file : text) : clean_name (new_name file) = true.
Proof.
  induction file as [|c file IH]; [done|].
  rewrite new_name_cons.
  assert (forall a b, clean_name (a ++ b) = clean_name a && clean_name b)
    as Happ by (intros a b; apply forallb_app).
  by rewrite Happ, IH, (unaccent_clean c).
Qed.

Lemma new_name_of_clean (file : text) :
  clean_name file = true -> new_name file = file.
Proof.
  induction file as [|c file IH]; [done|].
  cbn [clean_name forallb]. intros [Hc Hf]%andb_prop.
  rewrite new_name_cons, (unaccent_fixed c Hc). cbn [app]. f_equal.
  by apply IH.
Qed.

(** X27.  The name that [rename_file] gives holds only ASCII characters
    and no space, and [rename_file] would give the same name to it: a
    second run renames nothing. *)
Theorem new_name_clean (file : text) :
  clean_name (new_name file) = true
  /\ new_name (new_name file) = new_name file.
Proof.
  split; [apply new_name_is_clean|].
  apply new_name_of_clean, new_name_is_clean.
Qed.

(** X28.  A path of ASCII characters without a space keeps its name. *)
Theorem new_name_unchanged (file : text) :
  clean_name file = true -> new_name file = file.
Proof. apply new_name_of_clean. Qed.

Lemma new_name_unchanged_witness :
  new_name (T "out/my-note.md") = T "out/my-note.md".
Proof. apply (new_name_unchanged (T "out/my-note.md")). reflexivity. Defined.
